(** * Ros2Supervisor: the entity lifecycle manager of webots_ros2_driver

    A shallow embedding of
    [webots_ros2_driver/webots_ros2_driver/ros2_supervisor.py]: the three
    callbacks [__spawn_urdf_robot_callback],
    [__spawn_node_from_string_callback] and
    [__remove_imported_node_callback] of class [Ros2Supervisor], over an
    explicit state made of the private list [__node_list], the children
    field of the simulation root node and the logger output.

    Python strings are rendered as [string]; a character outside ASCII is
    its UTF-8 bytes, none of which is a letter, a digit, an underscore, a
    space or a double quote, so the pattern of the source matches the same
    region on either reading. *)

From Stdlib Require Import String Ascii List Bool Arith Lia.
Import ListNotations.

Local Open Scope string_scope.
Local Open Scope list_scope.

(** Concatenation of strings, kept apart from that of lists. *)
Infix "+++" := String.append (right associativity, at level 60).

(** ** Text *)

Module Text.

(** The double quote character, written by its code. *)
Definition dq : ascii := "034"%char.

Definition quote : string := String dq EmptyString.

(** Python's truth value of a [str]: only the empty one is false. *)
Definition truthy (s : string) : bool :=
  match s with
  | EmptyString => false
  | String _ _ => true
  end.

(** The character occurs in the text. *)
Fixpoint occurs (c : ascii) (s : string) : bool :=
  match s with
  | EmptyString => false
  | String x s' => Ascii.eqb c x || occurs c s'
  end.

Fixpoint starts_with (p s : string) : bool :=
  match p with
  | EmptyString => true
  | String a p' =>
      match s with
      | EmptyString => false
      | String b s' => Ascii.eqb a b && starts_with p' s'
      end
  end.

(** [str.replace(old, new)] for a non-empty [old]: occurrences are replaced
    from the left and do not overlap.  [skip] counts the characters of an
    occurrence that are still to be dropped. *)
Fixpoint replace_from (old new : string) (skip : nat) (s : string) : string :=
  match s with
  | EmptyString => EmptyString
  | String c s' =>
      match skip with
      | S k => replace_from old new k s'
      | O =>
          if starts_with old s
          then new +++ replace_from old new (String.length old - 1) s'
          else String c (replace_from old new 0 s')
      end
  end.

(** With an empty [old] Python puts [new] before every character and at
    the end. *)
Fixpoint intersperse_all (new s : string) : string :=
  match s with
  | EmptyString => new
  | String c s' => new +++ String c (intersperse_all new s')
  end.

Definition replace (old new s : string) : string :=
  match old with
  | EmptyString => intersperse_all new s
  | String _ _ => replace_from old new 0 s
  end.

End Text.

(** ** The fragment of regular expressions used by the source *)

Module Re.

(** A pattern is a sequence of atoms: a literal character, or a greedy
    starred character class. *)
Inductive atom : Type :=
| Chr (c : ascii)
| Star (cls : ascii -> bool).

Definition pattern : Type := list atom.

(** The backtracking matcher anchored at the head of the text.  It yields
    the matched text.  A star first tries to take one more character and
    falls back to the rest of the pattern. *)
Fixpoint match_at (p : pattern) : string -> option string :=
  match p with
  | [] => fun _ => Some EmptyString
  | Chr c :: p' =>
      fun s =>
        match s with
        | EmptyString => None
        | String c' s' =>
            if Ascii.eqb c c'
            then option_map (String c') (match_at p' s')
            else None
        end
  | Star cls :: p' =>
      fix star (s : string) : option string :=
        match s with
        | EmptyString => match_at p' EmptyString
        | String c' s' =>
            if cls c'
            then match star s' with
                 | Some m => Some (String c' m)
                 | None => match_at p' s
                 end
            else match_at p' s
        end
  end.

(** [re.search]: the match at the leftmost position that has one; the
    result is what [group()] returns on the match object, [None] is
    Python's [None]. *)
Fixpoint search (p : pattern) (s : string) : option string :=
  match match_at p s with
  | Some m => Some m
  | None =>
      match s with
      | EmptyString => None
      | String _ s' => search p s'
      end
  end.

Fixpoint literal (s : string) : pattern :=
  match s with
  | EmptyString => []
  | String c s' => Chr c :: literal s'
  end.

(** The class [[a-z0-9_]]. *)
Definition lower_digit_underscore (c : ascii) : bool :=
  let n := nat_of_ascii c in
  (((97 <=? n) && (n <=? 122)) || ((48 <=? n) && (n <=? 57)) || (n =? 95))%nat.

(** The pattern of line 118: the word name, a space, a quote, the starred
    class, a quote. *)
Definition name_pattern : pattern :=
  literal ("name " +++ Text.quote) ++ [Star lower_digit_underscore; Chr Text.dq].

End Re.

(** ** Outcomes, state and the handler monad *)

(** The exceptions the callbacks can let escape. *)
Inductive exn : Type :=
| AttributeError_group      (* [None] has no attribute [group] *)
| ValueError_remove         (* [list.remove(x)]: x not in list *)
| ConverterError (what : string).

Inductive outcome (A : Type) : Type :=
| Returned (a : A)
| Raised (e : exn).

Arguments Returned {A} a.
Arguments Raised {A} e.

(** A node of the children field of the root.  [getField_name] is what
    [node.getField('name')] followed by [getSFString()] reads; [None] when
    the node has no such field. *)
Record node : Type := mkNode {
  node_type : string;
  getField_name : option string
}.

(** The state a callback reads and writes: [self.__node_list], the nodes
    of [self.__insertion_node_place] in order, and the lines given to
    [self.get_logger().info], oldest first. *)
Record state : Type := mkState {
  node_list : list string;
  children : list node;
  logged : list string
}.

Definition M (A : Type) : Type := state -> outcome A * state.

Definition ret {A} (a : A) : M A := fun st => (Returned a, st).

Definition raise {A} (e : exn) : M A := fun st => (Raised e, st).

Definition bind {A B} (m : M A) (k : A -> M B) : M B :=
  fun st =>
    match m st with
    | (Returned a, st') => k a st'
    | (Raised e, st') => (Raised e, st')
    end.

Declare Scope handler_scope.
Delimit Scope handler_scope with handler.
Notation "x <- m ;; k" := (bind m (fun x => k))
  (at level 61, m at next level, right associativity) : handler_scope.
Notation "m ;; k" := (bind m (fun _ => k))
  (at level 61, right associativity) : handler_scope.
Local Open Scope handler_scope.

Definition get_node_list : M (list string) :=
  fun st => (Returned (node_list st), st).

Definition set_node_list (l : list string) : M unit :=
  fun st => (Returned tt, mkState l (children st) (logged st)).

Definition get_children : M (list node) :=
  fun st => (Returned (children st), st).

Definition set_children (c : list node) : M unit :=
  fun st => (Returned tt, mkState (node_list st) c (logged st)).

(** [self.get_logger().info(line)]. *)
Definition info (line : string) : M unit :=
  fun st => (Returned tt, mkState (node_list st) (children st) (logged st ++ [line])).

(** ** Python lists of names *)

(** [x in l]. *)
Definition mem (x : string) (l : list string) : bool :=
  existsb (String.eqb x) l.

(** [l.remove(x)]: the first occurrence goes; [None] when there is none,
    where Python raises [ValueError]. *)
Fixpoint list_remove (x : string) (l : list string) : option (list string) :=
  match l with
  | [] => None
  | y :: l' =>
      if String.eqb y x then Some l'
      else option_map (cons y) (list_remove x l')
  end.

Definition node_list_append (x : string) : M unit :=
  l <- get_node_list ;; set_node_list (l ++ [x]).

Definition node_list_remove (x : string) : M unit :=
  l <- get_node_list ;;
  match list_remove x l with
  | Some l' => set_node_list l'
  | None => raise ValueError_remove
  end.

(** ** Log lines of the source *)

Module Msg.

Definition q (name : string) : string := Text.quote +++ name +++ Text.quote.

Definition unnamed_robot : string :=
  "Ros2Supervisor cannot import an unnamed URDF robot. Please specifiy it with name="
  +++ q EmptyString +++ " in the URDFSpawner object.".

Definition name_used (name : string) : string :=
  "The URDF robot name " +++ q name
  +++ " is already used by another robot! Please specifiy a unique name.".

Definition no_source : string :=
  "Ros2Supervisor can not import a URDF file without a specified "
  +++ q "urdf_path" +++ " or " +++ q "robot_description"
  +++ " in the URDFSpawner object.".

Definition imported_robot (name : string) : string :=
  "Ros2Supervisor has imported the URDF robot named " +++ q name +++ ".".

Definition empty_string : string :=
  "Ros2Supervisor cannot import an empty string.".

Definition unnamed_node : string :=
  "Ros2Supervisor cannot import an unnamed node.".

Definition duplicate_node (name : string) : string :=
  "Ros2Supervisor has found a duplicate node in the world named " +++ q name
  +++ ". Please specifiy a unique name.".

Definition could_not_import (name : string) : string :=
  "Ros2Supervisor could not import the node named " +++ q name +++ ".".

Definition imported_node (name : string) : string :=
  "Ros2Supervisor has imported the node named " +++ q name +++ ".".

Definition removed (name : string) : string :=
  "Ros2Supervisor has removed the node named " +++ q name +++ ".".

Definition not_found (name : string) : string :=
  "Ros2Supervisor wanted to remove the node named " +++ q name
  +++ " but this node has not been found in the simulation world.".

End Msg.

(** ** Requests *)

(** Modelled from the spec: the message type UrdfRobot of webots_ros2_msgs,
    whose declaration is not among the sources; the fields are those the
    callback reads, strings except for the two flags. *)
Record UrdfRobot : Type := mkUrdfRobot {
  name : string;
  urdf_path : string;
  robot_description : string;
  relative_path_prefix : string;
  translation : string;
  rotation : string;
  normal : bool;
  box_collision : bool;
  init_pos : string
}.

(** The keyword arguments the callback gives to either converter. *)
Record convert_args : Type := mkArgs {
  input : string;
  robotName : string;
  arg_normal : bool;
  boxCollision : bool;
  initTranslation : string;
  initRotation : string;
  initPos : option string
}.

Record response : Type := mkResponse { success : bool }.

(** [s if s else None]. *)
Definition or_None (s : string) : option string :=
  if Text.truthy s then Some s else None.

(** [s if s else d]. *)
Definition or_default (s d : string) : string :=
  if Text.truthy s then s else d.

(** Lines 73 and 84 to 88: the name and the placement and shape options,
    with their defaults, as both converters receive them. *)
Definition keyword_args (robot : UrdfRobot) (input : string) : convert_args :=
  let robot_name := or_default (name robot) EmptyString in
  let robot_translation := or_default (translation robot) "0 0 0" in
  let robot_rotation := or_default (rotation robot) "0 0 1 0" in
  let normal := if normal robot then normal robot else false in
  let box_collision := if box_collision robot then box_collision robot else false in
  let init_pos := or_None (init_pos robot) in
  mkArgs input robot_name normal box_collision
         robot_translation robot_rotation init_pos.

(** ** The callbacks *)

Section Supervisor.

(** The collaborators: the two converters of urdf2webots, which give a
    fragment or raise, and the simulator, of which we only need the nodes
    it builds from a fragment at the end of the children field (none when
    it rejects the fragment). *)
Variable convertUrdfFile : convert_args -> outcome string.
Variable convertUrdfContent : convert_args -> option string -> outcome string.
Variable nodes_of_string : string -> list node.

Definition call {A} (o : outcome A) : M A := fun st => (o, st).

(** [self.__insertion_node_place.importMFNodeFromString(-1, fragment)]. *)
Definition importMFNodeFromString (fragment : string) : M unit :=
  c <- get_children ;; set_children (c ++ nodes_of_string fragment).

(** [node_name_field and node_name_field.getSFString() == name]. *)
Definition name_field_is (target : string) (n : node) : bool :=
  match getField_name n with
  | Some s => String.eqb s target
  | None => false
  end.

(** Lines 104 to 108. *)
Definition import_robot (robot_name robot_string : string) : M response :=
  importMFNodeFromString robot_string ;;
  info (Msg.imported_robot robot_name) ;;
  node_list_append robot_name ;;
  ret (mkResponse true).

Definition spawn_urdf_robot_callback (robot : UrdfRobot) : M response :=
  let robot_name := or_default (name robot) EmptyString in
  if String.eqb robot_name EmptyString then
    info Msg.unnamed_robot ;;
    ret (mkResponse false)
  else
    l <- get_node_list ;;
    if mem robot_name l then
      info (Msg.name_used robot_name) ;;
      ret (mkResponse false)
    else
      if Text.truthy (urdf_path robot) then
        robot_string <- call (convertUrdfFile (keyword_args robot (urdf_path robot))) ;;
        import_robot robot_name robot_string
      else if Text.truthy (robot_description robot) then
        let relative_path_prefix := or_None (relative_path_prefix robot) in
        robot_string <- call (convertUrdfContent
                                (keyword_args robot (robot_description robot))
                                relative_path_prefix) ;;
        import_robot robot_name robot_string
      else
        info Msg.no_source ;;
        ret (mkResponse false).

(** Lines 91 to 103 read apart from the rest: the converter call a request
    leads to, if it names a source. *)
Definition conversion (robot : UrdfRobot) : option (outcome string) :=
  if Text.truthy (urdf_path robot) then
    Some (convertUrdfFile (keyword_args robot (urdf_path robot)))
  else if Text.truthy (robot_description robot) then
    Some (convertUrdfContent (keyword_args robot (robot_description robot))
                             (or_None (relative_path_prefix robot)))
  else None.

(** Lines 119 and 120: the two [replace] calls on the matched text. *)
Definition strip_match (matched : string) : string :=
  Text.replace Text.quote EmptyString (Text.replace "name " EmptyString matched).

(** Lines 136 to 143: the flag [node_imported_successfully] after the
    loop over the children. *)
Fixpoint node_imported_successfully (object_name : string) (nodes : list node) : bool :=
  match nodes with
  | [] => false
  | n :: rest =>
      if name_field_is object_name n then true
      else node_imported_successfully object_name rest
  end.

Definition spawn_node_from_string_callback (data : string) : M response :=
  let object_string := data in
  if String.eqb object_string EmptyString then
    info Msg.empty_string ;;
    ret (mkResponse false)
  else
    match Re.search Re.name_pattern object_string with
    | None => raise AttributeError_group
    | Some matched =>
        let object_name := strip_match matched in
        if String.eqb object_name EmptyString then
          info Msg.unnamed_node ;;
          ret (mkResponse false)
        else
          l <- get_node_list ;;
          if mem object_name l then
            info (Msg.duplicate_node object_name) ;;
            ret (mkResponse false)
          else
            node_list_append object_name ;;
            importMFNodeFromString object_string ;;
            c <- get_children ;;
            if negb (node_imported_successfully object_name c) then
              node_list_remove object_name ;;
              info (Msg.could_not_import object_name) ;;
              ret (mkResponse false)
            else
              info (Msg.imported_node object_name) ;;
              ret (mkResponse true)
    end.

(** Lines 159 to 166: the variable [node] after the loop, as the index of
    the node it holds.  It is assigned at every turn, before the test. *)
Fixpoint node_after_loop (target : string) (nodes : list node)
         (id_node : nat) (node : option nat) : option nat :=
  match nodes with
  | [] => node
  | n :: rest =>
      let node := Some id_node in
      if name_field_is target n then node
      else node_after_loop target rest (S id_node) node
  end.

(** [node.remove()] for the node at index [i] of the children. *)
Definition remove_at (i : nat) (nodes : list node) : list node :=
  firstn i nodes ++ skipn (S i) nodes.

Definition remove_imported_node_callback (data : string) : M unit :=
  let name := data in
  l <- get_node_list ;;
  if mem name l then
    c <- get_children ;;
    match node_after_loop name c 0 None with
    | Some i =>
        set_children (remove_at i c) ;;
        node_list_remove name ;;
        info (Msg.removed name)
    | None =>
        info (Msg.not_found name)
    end
  else
    ret tt.

(** ** Serving spawn requests one after the other *)

Inductive spawn_request : Type :=
| SpawnUrdfRobot (robot : UrdfRobot)
| SpawnNodeFromString (data : string).

Definition spawn (r : spawn_request) : M response :=
  match r with
  | SpawnUrdfRobot robot => spawn_urdf_robot_callback robot
  | SpawnNodeFromString data => spawn_node_from_string_callback data
  end.

(** The name a spawn request is about: the requested one, or the one
    taken from the fragment. *)
Definition spawn_name (r : spawn_request) : option string :=
  match r with
  | SpawnUrdfRobot robot => Some (name robot)
  | SpawnNodeFromString data =>
      option_map strip_match (Re.search Re.name_pattern data)
  end.

(** Requests are served in order; an exception leaves the loop. *)
Fixpoint serve (rs : list spawn_request) (st : state)
  : list (spawn_request * response) * state :=
  match rs with
  | [] => ([], st)
  | r :: rs' =>
      match spawn r st with
      | (Returned resp, st') =>
          let (served, st'') := serve rs' st' in
          ((r, resp) :: served, st'')
      | (Raised _, st') => ([], st')
      end
  end.

Fixpoint spawned_names (served : list (spawn_request * response)) : list string :=
  match served with
  | [] => []
  | (r, resp) :: rest =>
      if success resp then
        match spawn_name r with
        | Some n => n :: spawned_names rest
        | None => spawned_names rest
        end
      else spawned_names rest
  end.

(** ** The node as a whole: creation and dispatch *)

(** What reaches the node: a call of one of the two services created at
    lines 63 and 64, or a message on the topic subscribed at line 66. *)
Inductive request : Type :=
| ServiceCall (r : spawn_request)
| RemoveNode (data : string).

(** The callback registered for each; a service call yields its response,
    a message yields nothing. *)
Definition dispatch (q : request) : M (option response) :=
  match q with
  | ServiceCall r => resp <- spawn r ;; ret (Some resp)
  | RemoveNode data => remove_imported_node_callback data ;; ret None
  end.

(** [rclpy.spin] on the requests in arrival order: each callback runs to
    its end before the next; an exception of a callback leaves the loop. *)
Fixpoint spin (qs : list request) (st : state) : outcome unit * state :=
  match qs with
  | [] => (Returned tt, st)
  | q :: qs' =>
      match dispatch q st with
      | (Returned _, st') => spin qs' st'
      | (Raised e, st') => (Raised e, st')
      end
  end.

End Supervisor.

(** Lines 57 to 59: the state [__init__] leaves, for the children the
    root node has when the controller starts. *)
Definition init (world : list node) : state := mkState [] world [].

(** The list of names has no repetition, does not hold the empty name,
    and holds only names that satisfy [P]. *)
Definition well_kept (P : string -> Prop) (st : state) : Prop :=
  NoDup (node_list st)
  /\ ~ In EmptyString (node_list st)
  /\ forall n, In n (node_list st) -> P n.

(** ** Running the callbacks on small worlds *)

Module Demo.

(** A converter that knows one file and one description. *)
Definition convertUrdfFile (a : convert_args) : outcome string :=
  if String.eqb (input a) "arm.urdf"
  then Returned ("Robot " +++ robotName a)
  else Raised (ConverterError "Input file does not exist.").

Definition convertUrdfContent (a : convert_args) (prefix : option string)
  : outcome string :=
  if String.eqb (input a) "<robot/>"
  then Returned ("Robot " +++ robotName a)
  else Raised (ConverterError "Could not parse the URDF file.").

(** A simulator that builds one node, named by the first name field of
    the fragment, and one that silently builds nothing. *)
Definition nodes_of_string (fragment : string) : list node :=
  match Re.search Re.name_pattern fragment with
  | Some m => [mkNode "Solid" (Some (strip_match m))]
  | None => [mkNode "Solid" None]
  end.

Definition no_nodes (fragment : string) : list node := [].

Definition empty : state := mkState [] [] [].

Definition box_1 : string :=
  "Solid { name " +++ Msg.q "box_1" +++ " }".

Definition nested : string :=
  "Robot { children [ Solid { name " +++ Msg.q "inner" +++ " } ] name "
  +++ Msg.q "outer" +++ " }".

Definition armA : UrdfRobot :=
  mkUrdfRobot "armA" "arm.urdf" EmptyString EmptyString
              EmptyString EmptyString false false EmptyString.

(** A request whose file the converter does not find. *)
Definition lost : UrdfRobot :=
  mkUrdfRobot "armB" "missing.urdf" EmptyString EmptyString
              EmptyString EmptyString false false EmptyString.

Definition crate : node := mkNode "Solid" (Some "crate").

Definition wall : node := mkNode "Solid" (Some "wall").

(** The list of names holds armA, the world does not. *)
Definition desync : state := mkState ["armA"] [crate; wall] [].

(** A fragment without a name field. *)
Definition nameless : string := "Solid { translation 0 0 1 }".

Definition abc123 : string := "Solid { name " +++ Msg.q "abc123" +++ " }".

End Demo.

(** ** What the specification says of name extraction *)

Module Spec.

(** Every character is a lower-case letter, a digit or an underscore. *)
Fixpoint identifier (id : string) : bool :=
  match id with
  | EmptyString => true
  | String c id' => Re.lower_digit_underscore c && identifier id'
  end.

(** The text of a name field holding [id]. *)
Definition name_field (id : string) : string := "name " +++ Msg.q id.

(** The text [s] has a name field holding [id] after the prefix [pre]. *)
Definition occurs_at (pre id post s : string) : Prop :=
  identifier id = true /\ s = pre +++ name_field id +++ post.

(** ... and no name field starts before it. *)
Definition first_occurrence (pre id post s : string) : Prop :=
  occurs_at pre id post s /\
  forall pre' id' post',
    occurs_at pre' id' post' s -> String.length pre <= String.length pre'.

(** Some node of the list carries the name. *)
Definition carries (target : string) (nodes : list node) : Prop :=
  exists n, In n nodes /\ getField_name n = Some target.

End Spec.

Example search_first :
  Re.search Re.name_pattern Demo.box_1 = Some ("name " +++ Msg.q "box_1").
Proof. reflexivity. Qed.

Example search_none : Re.search Re.name_pattern "Solid { }" = None.
Proof. reflexivity. Qed.

Example replace_ab : Text.replace "ab" "x" "abcabab" = "xcxx".
Proof. reflexivity. Qed.

Example spawn_box_twice :
  let '(o1, st1) := spawn_node_from_string_callback Demo.nodes_of_string Demo.box_1 Demo.empty in
  let '(o2, st2) := spawn_node_from_string_callback Demo.nodes_of_string Demo.box_1 st1 in
  o1 = Returned (mkResponse true) /\ o2 = Returned (mkResponse false)
  /\ node_list st2 = ["box_1"].
Proof. vm_compute. repeat split. Qed.

(** ** Facts about text *)

Lemma append_assoc (a b c : string) : (a +++ b) +++ c = a +++ b +++ c.
Proof. induction a as [|x a IH]; simpl; [reflexivity | now rewrite IH]. Qed.

Lemma append_empty_r (a : string) : a +++ EmptyString = a.
Proof. induction a as [|x a IH]; simpl; [reflexivity | now rewrite IH]. Qed.

Lemma length_append (a b : string) :
  String.length (a +++ b) = String.length a + String.length b.
Proof. induction a as [|x a IH]; simpl; [reflexivity | now rewrite IH]. Qed.

Lemma starts_with_append (p r : string) : Text.starts_with p (p +++ r) = true.
Proof.
  induction p as [|x p IH]; simpl; [reflexivity|].
  now rewrite Ascii.eqb_refl.
Qed.

Lemma starts_with_inv (p s : string) :
  Text.starts_with p s = true -> exists r, s = p +++ r.
Proof.
  revert s; induction p as [|x p IH]; intros s H; simpl in *.
  - now exists s.
  - destruct s as [|y s]; [discriminate|].
    apply andb_true_iff in H as [Hxy Hp].
    apply Ascii.eqb_eq in Hxy; subst y.
    destruct (IH _ Hp) as [r ->]. now exists r.
Qed.

(** ** Facts about the matcher *)

Lemma match_at_literal (p : string) (q : Re.pattern) (s m : string) :
  Re.match_at (Re.literal p ++ q) s = Some m <->
  exists s' m', s = p +++ s' /\ Re.match_at q s' = Some m' /\ m = p +++ m'.
Proof.
  revert s m; induction p as [|c p IH]; intros s m; simpl.
  - split.
    + intros H. now exists s, m.
    + intros (s' & m' & -> & H & ->). exact H.
  - destruct s as [|c' s].
    + split; [discriminate|]. intros (s' & m' & H & _). discriminate.
    + destruct (Ascii.eqb_spec c c') as [<-|Hne].
      * destruct (Re.match_at (Re.literal p ++ q) s) as [m0|] eqn:E; simpl.
        -- apply IH in E as (s' & m' & -> & Hq & ->).
           split.
           ++ intros [= <-]. now exists s', m'.
           ++ intros (s'' & m'' & [= Hs] & Hq' & ->).
              assert (s'' = s') as ->.
              { clear -Hs. induction p as [|x p IH]; simpl in Hs; [now symmetry|].
                injection Hs as Hs. now apply IH. }
              rewrite Hq in Hq'. now injection Hq' as <-.
        -- split; [discriminate|].
           intros (s' & m' & [= ->] & Hq & ->).
           assert (Re.match_at (Re.literal p ++ q) (p +++ s') = Some (p +++ m')) as E'.
           { apply IH. now exists s', m'. }
           congruence.
      * split; [discriminate|].
        intros (s' & m' & [= He _] & _). now elim Hne.
Qed.

Lemma star_step (cls : ascii -> bool) (p : Re.pattern) (c : ascii) (s : string) :
  Re.match_at (Re.Star cls :: p) (String c s) =
  if cls c
  then match Re.match_at (Re.Star cls :: p) s with
       | Some m => Some (String c m)
       | None => Re.match_at p (String c s)
       end
  else Re.match_at p (String c s).
Proof. reflexivity. Qed.

Lemma chr_step (d : ascii) (p : Re.pattern) (c : ascii) (s : string) :
  Re.match_at (Re.Chr d :: p) (String c s) =
  if Ascii.eqb d c then option_map (String c) (Re.match_at p s) else None.
Proof. reflexivity. Qed.

Lemma dq_not_in_class : Re.lower_digit_underscore Text.dq = false.
Proof. reflexivity. Qed.

Lemma match_identifier_quote (s m : string) :
  Re.match_at [Re.Star Re.lower_digit_underscore; Re.Chr Text.dq] s = Some m <->
  exists id post,
    Spec.identifier id = true /\ s = id +++ String Text.dq post
    /\ m = id +++ Text.quote.
Proof.
  revert m; induction s as [|c s IH]; intros m.
  - simpl. split; [discriminate|].
    intros (id & post & _ & H & _). destruct id; discriminate.
  - rewrite star_step.
    destruct (Re.lower_digit_underscore c) eqn:Hc.
    + assert (Re.match_at [Re.Chr Text.dq] (String c s) = None) as Hq.
      { rewrite chr_step. destruct (Ascii.eqb_spec Text.dq c) as [<-|_]; [|reflexivity].
        rewrite dq_not_in_class in Hc. discriminate. }
      rewrite Hq.
      assert (forall id' post', Spec.identifier id' = true ->
                String c s = id' +++ String Text.dq post' ->
                exists id'', id' = String c id'' /\ Spec.identifier id'' = true
                             /\ s = id'' +++ String Text.dq post') as Hhead.
      { intros id' post' Hid' Hs. destruct id' as [|c' id'].
        - simpl in Hs. injection Hs as Hcd _. rewrite Hcd in Hc.
          rewrite dq_not_in_class in Hc. discriminate.
        - simpl in Hs. injection Hs as <- Hs.
          simpl in Hid'. apply andb_true_iff in Hid' as [_ Hid'].
          now exists id'. }
      destruct (Re.match_at [Re.Star Re.lower_digit_underscore; Re.Chr Text.dq] s)
        as [m0|].
      * destruct (proj1 (IH m0) eq_refl) as (id & post & Hid & Hs0 & ->).
        split.
        -- intros [= <-]. exists (String c id), post. simpl.
           rewrite Hc, Hid, Hs0. auto.
        -- intros (id' & post' & Hid' & Hs & ->).
           destruct (Hhead _ _ Hid' Hs) as (id'' & -> & Hid'' & Hs'').
           assert (Some (id +++ Text.quote) = Some (id'' +++ Text.quote)) as E.
           { apply IH. exists id'', post'. auto. }
           injection E as E. simpl. now rewrite E.
      * split; [discriminate|].
        intros (id' & post' & Hid' & Hs & ->).
        destruct (Hhead _ _ Hid' Hs) as (id'' & -> & Hid'' & Hs'').
        assert (None = Some (id'' +++ Text.quote)) as E.
        { apply IH. exists id'', post'. auto. }
        discriminate.
    + rewrite chr_step.
      destruct (Ascii.eqb_spec Text.dq c) as [<-|Hne]; cbn [Re.match_at option_map].
      * split.
        -- intros [= <-]. exists EmptyString, s. auto.
        -- intros (id' & post' & Hid' & Hs & ->).
           destruct id' as [|c' id']; [reflexivity|].
           simpl in Hs. injection Hs as Hcd _. subst c'.
           cbn in Hid'. discriminate.
      * split; [discriminate|].
        intros (id' & post' & Hid' & Hs & ->).
        destruct id' as [|c' id'].
        -- simpl in Hs. injection Hs as Hcd _. now elim Hne.
        -- simpl in Hs. injection Hs as Hcd _. subst c'.
           simpl in Hid'. rewrite Hc in Hid'. discriminate.
Qed.

Lemma name_field_append (id post : string) :
  Spec.name_field id +++ post
  = ("name " +++ Text.quote) +++ id +++ String Text.dq post.
Proof.
  unfold Spec.name_field, Msg.q, Text.quote. cbn [String.append].
  now rewrite append_assoc.
Qed.

Lemma name_field_alone (id : string) :
  Spec.name_field id = ("name " +++ Text.quote) +++ id +++ Text.quote.
Proof. reflexivity. Qed.

(** The anchored match of the pattern of line 118 is a name field at the
    head of the text. *)
Lemma match_name_pattern (s m : string) :
  Re.match_at Re.name_pattern s = Some m <->
  exists id post, Spec.occurs_at EmptyString id post s /\ m = Spec.name_field id.
Proof.
  unfold Re.name_pattern, Spec.occurs_at. rewrite match_at_literal. split.
  - intros (s' & m' & -> & Hm & ->).
    apply match_identifier_quote in Hm as (id & post & Hid & -> & ->).
    exists id, post. cbn [String.append]. rewrite name_field_append. auto.
  - intros (id & post & (Hid & ->) & ->).
    exists (id +++ String Text.dq post), (id +++ Text.quote).
    cbn [String.append]. rewrite name_field_append. repeat split.
    apply match_identifier_quote. now exists id, post.
Qed.

Lemma occurs_at_cons (c : ascii) (pre id post s : string) :
  Spec.occurs_at (String c pre) id post (String c s) <-> Spec.occurs_at pre id post s.
Proof.
  unfold Spec.occurs_at. cbn [String.append]. split.
  - intros (Hid & [= ->]). auto.
  - intros (Hid & ->). auto.
Qed.

Lemma occurs_at_head (c c' : ascii) (pre id post s : string) :
  Spec.occurs_at (String c pre) id post (String c' s) -> c = c'.
Proof. unfold Spec.occurs_at. cbn [String.append]. now intros (_ & [= -> _]). Qed.

Lemma search_sound (s m : string) :
  Re.search Re.name_pattern s = Some m ->
  exists pre id post, Spec.first_occurrence pre id post s /\ m = Spec.name_field id.
Proof.
  revert m; induction s as [|c s IH]; intros m; cbn [Re.search];
    destruct (Re.match_at Re.name_pattern _) as [m0|] eqn:E.
  1, 3: intros [= <-]; apply match_name_pattern in E as (id & post & Hocc & ->);
        exists EmptyString, id, post; repeat split; try apply Hocc;
        intros; simpl; lia.
  - discriminate.
  - intros H. destruct (IH _ H) as (pre & id & post & (Hocc & Hmin) & ->).
    exists (String c pre), id, post. repeat split.
    + apply (proj2 (occurs_at_cons c pre id post s) Hocc).
    + apply (proj2 (occurs_at_cons c pre id post s) Hocc).
    + intros pre' id' post' Hocc'. destruct pre' as [|c' pre'].
      * assert (Re.match_at Re.name_pattern (String c s) = Some (Spec.name_field id')) as E'.
        { apply match_name_pattern. now exists id', post'. }
        congruence.
      * pose proof (occurs_at_head _ _ _ _ _ _ Hocc') as ->.
        pose proof (proj1 (occurs_at_cons _ _ _ _ _) Hocc') as Hocc''.
        apply Hmin in Hocc''. simpl. lia.
Qed.

Lemma search_complete (pre id post s : string) :
  Spec.first_occurrence pre id post s ->
  Re.search Re.name_pattern s = Some (Spec.name_field id).
Proof.
  revert s; induction pre as [|c pre IH]; intros s (Hocc & Hmin).
  - assert (Re.match_at Re.name_pattern s = Some (Spec.name_field id)) as E.
    { apply match_name_pattern. now exists id, post. }
    destruct s; cbn [Re.search]; now rewrite E.
  - destruct s as [|c' s]; [destruct Hocc as (_ & Hs); discriminate|].
    pose proof (occurs_at_head _ _ _ _ _ _ Hocc) as <-.
    cbn [Re.search].
    destruct (Re.match_at Re.name_pattern (String c s)) as [m0|] eqn:E.
    + apply match_name_pattern in E as (id0 & post0 & Hocc0 & _).
      apply Hmin in Hocc0. simpl in Hocc0. lia.
    + apply IH. split.
      * exact (proj1 (occurs_at_cons _ _ _ _ _) Hocc).
      * intros pre' id' post' Hocc'.
        pose proof (proj2 (occurs_at_cons c _ _ _ _) Hocc') as Hocc''.
        apply Hmin in Hocc''. simpl in Hocc''. lia.
Qed.

(** ** Facts about [replace] *)

Lemma occurs_append (c : ascii) (a b : string) :
  Text.occurs c (a +++ b) = Text.occurs c a || Text.occurs c b.
Proof.
  induction a as [|x a IH]; cbn [String.append Text.occurs]; [reflexivity|].
  now rewrite IH, orb_assoc.
Qed.

Lemma replace_from_skip (old new p r : string) :
  Text.replace_from old new (String.length p) (p +++ r)
  = Text.replace_from old new 0 r.
Proof.
  induction p as [|x p IH]; cbn [String.append String.length Text.replace_from].
  - destruct r; reflexivity.
  - exact IH.
Qed.

Lemma replace_from_hit (c : ascii) (old new r : string) :
  Text.replace_from (String c old) new 0 (String c old +++ r)
  = new +++ Text.replace_from (String c old) new 0 r.
Proof.
  cbn [String.append Text.replace_from].
  change (Text.starts_with (String c old) (String c (old +++ r)))
    with (Text.starts_with (String c old) (String c old +++ r)).
  rewrite starts_with_append.
  cbn [String.length].
  replace (S (String.length old) - 1) with (String.length old) by lia.
  now rewrite replace_from_skip.
Qed.

Lemma replace_from_absent (c : ascii) (old new t : string) :
  Text.occurs c old = true -> Text.occurs c t = false ->
  Text.replace_from old new 0 t = t.
Proof.
  intros Hold. induction t as [|x t IH]; intros Ht; [reflexivity|].
  cbn [Text.replace_from].
  destruct (Text.starts_with old (String x t)) eqn:E.
  - apply starts_with_inv in E as [r E]. rewrite E, occurs_append, Hold in Ht.
    discriminate.
  - cbn [Text.occurs] in Ht. apply orb_false_iff in Ht as [_ Ht].
    now rewrite IH.
Qed.

Lemma identifier_occurs (c : ascii) (id : string) :
  Re.lower_digit_underscore c = false -> Spec.identifier id = true ->
  Text.occurs c id = false.
Proof.
  intros Hc. induction id as [|x id IH]; intros Hid; [reflexivity|].
  cbn [Spec.identifier] in Hid. apply andb_true_iff in Hid as [Hx Hid].
  cbn [Text.occurs]. rewrite (IH Hid), orb_false_r.
  apply Ascii.eqb_neq. intros ->. congruence.
Qed.

Lemma replace_closing_quote (id : string) :
  Text.occurs Text.dq id = false ->
  Text.replace_from Text.quote EmptyString 0 (id +++ Text.quote) = id.
Proof.
  induction id as [|x id IH]; intros Hid; [reflexivity|].
  cbn [Text.occurs] in Hid. apply orb_false_iff in Hid as [Hx Hid].
  cbn [String.append Text.replace_from Text.quote Text.starts_with].
  rewrite Hx. cbn [andb]. now rewrite (IH Hid).
Qed.

(** Lines 119 and 120 give back the identifier of a matched name field. *)
Lemma strip_match_name_field (id : string) :
  Spec.identifier id = true -> strip_match (Spec.name_field id) = id.
Proof.
  intros Hid. unfold strip_match, Text.replace.
  assert (Text.replace_from "name " EmptyString 0 (Spec.name_field id) = Msg.q id) as ->.
  { unfold Spec.name_field. rewrite replace_from_hit. cbn [String.append].
    apply (replace_from_absent " "%char); [reflexivity|].
    unfold Msg.q. rewrite !occurs_append.
    now rewrite (identifier_occurs " "%char id eq_refl Hid). }
  unfold Msg.q, Text.quote at 1.
  change (String Text.dq EmptyString +++ id +++ Text.quote)
    with (String Text.dq EmptyString +++ (id +++ Text.quote)).
  rewrite (replace_from_hit Text.dq EmptyString EmptyString).
  cbn [String.append].
  apply replace_closing_quote. now apply identifier_occurs.
Qed.

(** The name the raw-fragment callback works with, in the words of the
    specification. *)
Lemma spawn_name_first_occurrence (s id : string) :
  spawn_name (SpawnNodeFromString s) = Some id <->
  exists pre post, Spec.first_occurrence pre id post s.
Proof.
  cbn [spawn_name]. split.
  - destruct (Re.search Re.name_pattern s) as [m|] eqn:E; [|discriminate].
    apply search_sound in E as (pre & id0 & post & Hfirst & ->).
    cbn [option_map]. rewrite strip_match_name_field by apply Hfirst.
    intros [= <-]. now exists pre, post.
  - intros (pre & post & Hfirst).
    rewrite (search_complete _ _ _ _ Hfirst). cbn [option_map].
    now rewrite strip_match_name_field by apply Hfirst.
Qed.

(** ** Facts about the list of names and the scans *)

Lemma mem_In (x : string) (l : list string) : mem x l = true <-> In x l.
Proof.
  unfold mem. rewrite existsb_exists. split.
  - intros (y & Hy & E). apply String.eqb_eq in E. now subst.
  - intros H. exists x. split; [assumption | apply String.eqb_refl].
Qed.

Lemma mem_not_In (x : string) (l : list string) : mem x l = false <-> ~ In x l.
Proof.
  rewrite <- mem_In. destruct (mem x l); split; congruence.
Qed.

Lemma list_remove_last (x : string) (l : list string) :
  ~ In x l -> list_remove x (l ++ [x]) = Some l.
Proof.
  induction l as [|y l IH]; intros H; cbn [app list_remove].
  - now rewrite String.eqb_refl.
  - destruct (String.eqb_spec y x) as [->|_].
    + elim H. now left.
    + rewrite IH; [reflexivity|]. intros Hin. apply H. now right.
Qed.

Lemma list_remove_first (x : string) (l : list string) :
  In x l ->
  exists l1 l2, l = l1 ++ x :: l2 /\ ~ In x l1 /\ list_remove x l = Some (l1 ++ l2).
Proof.
  induction l as [|y l IH]; intros H; [contradiction|].
  cbn [list_remove]. destruct (String.eqb_spec y x) as [->|Hne].
  - exists [], l. auto.
  - destruct H as [H|H]; [contradiction|].
    destruct (IH H) as (l1 & l2 & -> & Hl1 & ->).
    exists (y :: l1), l2. repeat split.
    intros [E|E]; [now apply Hne | now apply Hl1].
Qed.

Lemma remove_at_middle (before after : list node) (n : node) :
  remove_at (length before) (before ++ n :: after) = before ++ after.
Proof.
  unfold remove_at. induction before as [|x before IH]; [reflexivity|].
  cbn [length app firstn skipn] in *. now rewrite IH.
Qed.

Section Scans.

Variable target : string.

Lemma name_field_is_true (n : node) :
  name_field_is target n = true <-> getField_name n = Some target.
Proof.
  unfold name_field_is. destruct (getField_name n) as [s|].
  - rewrite String.eqb_eq. split; congruence.
  - split; discriminate.
Qed.

Lemma imported_iff_carries (nodes : list node) :
  node_imported_successfully target nodes = true <-> Spec.carries target nodes.
Proof.
  unfold Spec.carries. induction nodes as [|n nodes IH]; cbn [node_imported_successfully].
  - split; [discriminate | intros (n & [] & _)].
  - destruct (name_field_is target n) eqn:E.
    + split; [|reflexivity]. intros _. exists n. split; [now left|].
      now apply name_field_is_true.
    + rewrite IH. split.
      * intros (m & Hm & Hf). exists m. split; [now right | assumption].
      * intros (m & [<-|Hm] & Hf).
        -- apply name_field_is_true in Hf. congruence.
        -- now exists m.
Qed.

(** When a node carries the name, the loop of the removal leaves with the
    first such node. *)
Lemma node_after_loop_found (nodes : list node) (id_node : nat) (node : option nat) :
  Spec.carries target nodes ->
  exists before n after,
    nodes = before ++ n :: after
    /\ getField_name n = Some target
    /\ (forall m, In m before -> getField_name m <> Some target)
    /\ node_after_loop target nodes id_node node = Some (id_node + length before).
Proof.
  revert id_node node. induction nodes as [|n nodes IH]; intros id_node node Hc.
  - destruct Hc as (m & [] & _).
  - cbn [node_after_loop]. destruct (name_field_is target n) eqn:E.
    + exists [], n, nodes. repeat split.
      * now apply name_field_is_true.
      * intros m [].
      * cbn [length]. now rewrite Nat.add_0_r.
    + assert (Spec.carries target nodes) as Hc'.
      { destruct Hc as (m & [<-|Hm] & Hf).
        - apply name_field_is_true in Hf. congruence.
        - now exists m. }
      destruct (IH (S id_node) (Some id_node) Hc')
        as (before & n' & after & -> & Hn' & Hbefore & Hloop).
      exists (n :: before), n', after. repeat split; [assumption| |].
      * intros m [<-|Hm]; [|now apply Hbefore].
        intros Hf. apply name_field_is_true in Hf. congruence.
      * rewrite Hloop. cbn [length]. f_equal. lia.
Qed.

(** When none does, the variable still holds the last node visited. *)
Lemma node_after_loop_missed (nodes : list node) (id_node : nat) (node : option nat) :
  ~ Spec.carries target nodes ->
  node_after_loop target nodes id_node node =
  match nodes with
  | [] => node
  | _ :: rest => Some (id_node + length rest)
  end.
Proof.
  revert id_node node. induction nodes as [|n nodes IH]; intros id_node node Hc.
  - reflexivity.
  - cbn [node_after_loop]. destruct (name_field_is target n) eqn:E.
    + elim Hc. exists n. split; [now left | now apply name_field_is_true].
    + rewrite IH.
      * destruct nodes as [|n' nodes]; cbn [length]; f_equal; lia.
      * intros (m & Hm & Hf). apply Hc. exists m. split; [now right | assumption].
Qed.

End Scans.

(** ** The callbacks on validated requests *)

(** Runs the plumbing of the handler monad in the goal. *)
Ltac run_handler :=
  cbv beta iota zeta delta
      [bind ret raise call info get_node_list set_node_list get_children
       set_children node_list_append node_list_remove importMFNodeFromString
       import_robot node_list children logged].

Lemma truthy_nonempty (s : string) : s <> EmptyString -> Text.truthy s = true.
Proof. destruct s; [congruence | reflexivity]. Qed.

Lemma or_default_nonempty (s d : string) : s <> EmptyString -> or_default s d = s.
Proof. intros H. unfold or_default. now rewrite truthy_nonempty. Qed.

Section Callbacks.

Variable convertUrdfFile : convert_args -> outcome string.
Variable convertUrdfContent : convert_args -> option string -> outcome string.
Variable nodes_of_string : string -> list node.

Local Notation "'spawn_urdf'" :=
  (spawn_urdf_robot_callback convertUrdfFile convertUrdfContent nodes_of_string).
Local Notation "'spawn_string'" :=
  (spawn_node_from_string_callback nodes_of_string).
Local Notation "'spawn_any'" :=
  (spawn convertUrdfFile convertUrdfContent nodes_of_string).
Local Notation "'serve_all'" :=
  (serve convertUrdfFile convertUrdfContent nodes_of_string).

Lemma spawn_urdf_validated (robot : UrdfRobot) (st : state) :
  name robot <> EmptyString ->
  ~ In (name robot) (node_list st) ->
  spawn_urdf robot st =
  match conversion convertUrdfFile convertUrdfContent robot with
  | Some (Returned robot_string) =>
      (Returned (mkResponse true),
       mkState (node_list st ++ [name robot])
               (children st ++ nodes_of_string robot_string)
               (logged st ++ [Msg.imported_robot (name robot)]))
  | Some (Raised e) => (Raised e, st)
  | None =>
      (Returned (mkResponse false),
       mkState (node_list st) (children st) (logged st ++ [Msg.no_source]))
  end.
Proof.
  intros Hname Hfresh. unfold spawn_urdf_robot_callback, conversion.
  rewrite (or_default_nonempty _ _ Hname).
  destruct (String.eqb_spec (name robot) EmptyString) as [E|_]; [contradiction|].
  unfold bind at 1. cbn [get_node_list].
  rewrite (proj2 (mem_not_In _ _) Hfresh).
  destruct (Text.truthy (urdf_path robot)).
  - unfold bind at 1, call.
    destruct (convertUrdfFile _) as [robot_string|e]; [|reflexivity].
    destruct st; reflexivity.
  - destruct (Text.truthy (robot_description robot)).
    + unfold bind at 1, call.
      destruct (convertUrdfContent _ _) as [robot_string|e]; [|reflexivity].
      destruct st; reflexivity.
    + reflexivity.
Qed.

Lemma spawn_string_validated (data matched : string) (st : state) :
  data <> EmptyString ->
  Re.search Re.name_pattern data = Some matched ->
  strip_match matched <> EmptyString ->
  ~ In (strip_match matched) (node_list st) ->
  spawn_string data st =
  if node_imported_successfully (strip_match matched)
                                (children st ++ nodes_of_string data)
  then (Returned (mkResponse true),
        mkState (node_list st ++ [strip_match matched])
                (children st ++ nodes_of_string data)
                (logged st ++ [Msg.imported_node (strip_match matched)]))
  else (Returned (mkResponse false),
        mkState (node_list st)
                (children st ++ nodes_of_string data)
                (logged st ++ [Msg.could_not_import (strip_match matched)])).
Proof.
  intros Hdata Hsearch Hname Hfresh. unfold spawn_node_from_string_callback.
  destruct (String.eqb_spec data EmptyString) as [E|_]; [contradiction|].
  rewrite Hsearch.
  destruct (String.eqb_spec (strip_match matched) EmptyString) as [E|_];
    [contradiction|].
  unfold bind at 1. cbn [get_node_list].
  rewrite (proj2 (mem_not_In _ _) Hfresh).
  destruct st as [l c lg]. run_handler.
  destruct (node_imported_successfully _ _); cbn [negb].
  - reflexivity.
  - cbn [node_list] in Hfresh. now rewrite (list_remove_last _ _ Hfresh).
Qed.

Lemma spawn_string_duplicate (data matched : string) (st : state) :
  Re.search Re.name_pattern data = Some matched ->
  In (strip_match matched) (node_list st) ->
  exists line,
    spawn_string data st =
    (Returned (mkResponse false),
     mkState (node_list st) (children st) (logged st ++ [line])).
Proof.
  intros Hsearch Hused. unfold spawn_node_from_string_callback.
  destruct (String.eqb_spec data EmptyString) as [E|_].
  - now exists Msg.empty_string.
  - rewrite Hsearch.
    destruct (String.eqb_spec (strip_match matched) EmptyString) as [E|_].
    + now exists Msg.unnamed_node.
    + unfold bind at 1. cbn [get_node_list].
      rewrite (proj2 (mem_In _ _) Hused).
      now exists (Msg.duplicate_node (strip_match matched)).
Qed.

Lemma spawn_urdf_duplicate (robot : UrdfRobot) (st : state) :
  In (name robot) (node_list st) ->
  exists line,
    spawn_urdf robot st =
    (Returned (mkResponse false),
     mkState (node_list st) (children st) (logged st ++ [line])).
Proof.
  intros Hused. unfold spawn_urdf_robot_callback.
  destruct (String.eqb_spec (or_default (name robot) EmptyString) EmptyString) as [E|Hne].
  - now exists Msg.unnamed_robot.
  - assert (or_default (name robot) EmptyString = name robot) as ->.
    { unfold or_default. now destruct (name robot). }
    unfold bind at 1. cbn [get_node_list].
    rewrite (proj2 (mem_In _ _) Hused).
    now exists (Msg.name_used (name robot)).
Qed.

(** Every raw-fragment request ends in one of three ways. *)
Lemma spawn_string_cases (data : string) (st : state) :
  (exists line,
      spawn_string data st =
      (Returned (mkResponse false),
       mkState (node_list st) (children st) (logged st ++ [line])))
  \/ (data <> EmptyString
      /\ Re.search Re.name_pattern data = None
      /\ spawn_string data st = (Raised AttributeError_group, st))
  \/ (exists matched,
         data <> EmptyString
         /\ Re.search Re.name_pattern data = Some matched
         /\ strip_match matched <> EmptyString
         /\ ~ In (strip_match matched) (node_list st)).
Proof.
  destruct (String.eqb_spec data EmptyString) as [E|Hdata].
  - left. exists Msg.empty_string. unfold spawn_node_from_string_callback.
    now rewrite (proj2 (String.eqb_eq _ _) E).
  - destruct (Re.search Re.name_pattern data) as [matched|] eqn:Hsearch.
    + destruct (mem (strip_match matched) (node_list st)) eqn:Hmem.
      * left. apply mem_In in Hmem.
        exact (spawn_string_duplicate _ _ _ Hsearch Hmem).
      * apply mem_not_In in Hmem.
        destruct (String.eqb_spec (strip_match matched) EmptyString) as [E|Hname].
        -- left. exists Msg.unnamed_node. unfold spawn_node_from_string_callback.
           rewrite (proj2 (String.eqb_neq _ _) Hdata), Hsearch.
           now rewrite (proj2 (String.eqb_eq _ _) E).
        -- right. right. now exists matched.
    + right. left. repeat split; [assumption|].
      unfold spawn_node_from_string_callback.
      now rewrite (proj2 (String.eqb_neq _ _) Hdata), Hsearch.
Qed.

(** Every robot-description request is either turned down at once or
    validated. *)
Lemma spawn_urdf_cases (robot : UrdfRobot) (st : state) :
  (exists line,
      spawn_urdf robot st =
      (Returned (mkResponse false),
       mkState (node_list st) (children st) (logged st ++ [line])))
  \/ (name robot <> EmptyString /\ ~ In (name robot) (node_list st)).
Proof.
  destruct (mem (name robot) (node_list st)) eqn:Hmem.
  - left. apply mem_In in Hmem. now apply spawn_urdf_duplicate.
  - apply mem_not_In in Hmem.
    destruct (String.eqb_spec (name robot) EmptyString) as [E|Hname].
    + left. exists Msg.unnamed_robot. unfold spawn_urdf_robot_callback.
      now rewrite E.
    + now right.
Qed.

End Callbacks.

(** ** The removal callback, case by case *)

Lemma remove_unknown (data : string) (st : state) :
  ~ In data (node_list st) ->
  remove_imported_node_callback data st = (Returned tt, st).
Proof.
  intros H. unfold remove_imported_node_callback.
  unfold bind at 1. cbn [get_node_list].
  now rewrite (proj2 (mem_not_In _ _) H).
Qed.

Lemma remove_found (data : string) (st : state) :
  In data (node_list st) ->
  Spec.carries data (children st) ->
  exists before n after l1 l2,
    children st = before ++ n :: after
    /\ getField_name n = Some data
    /\ (forall m, In m before -> getField_name m <> Some data)
    /\ node_list st = l1 ++ data :: l2
    /\ ~ In data l1
    /\ remove_imported_node_callback data st =
       (Returned tt,
        mkState (l1 ++ l2) (before ++ after) (logged st ++ [Msg.removed data])).
Proof.
  intros Hused Hcarries.
  destruct (node_after_loop_found data _ 0 None Hcarries)
    as (before & n & after & Hch & Hn & Hbefore & Hloop).
  destruct (list_remove_first _ _ Hused) as (l1 & l2 & Hl & Hl1 & Hrm).
  exists before, n, after, l1, l2. repeat split; try assumption.
  unfold remove_imported_node_callback.
  unfold bind at 1. cbn [get_node_list].
  rewrite (proj2 (mem_In _ _) Hused).
  destruct st as [l c lg]. cbn [node_list children logged] in *.
  run_handler. rewrite Hloop. cbn [Nat.add]. rewrite Hrm.
  subst c. now rewrite remove_at_middle.
Qed.

Lemma remove_missed_empty (data : string) (st : state) :
  In data (node_list st) ->
  children st = [] ->
  remove_imported_node_callback data st =
  (Returned tt,
   mkState (node_list st) [] (logged st ++ [Msg.not_found data])).
Proof.
  intros Hused Hch. unfold remove_imported_node_callback.
  unfold bind at 1. cbn [get_node_list].
  rewrite (proj2 (mem_In _ _) Hused).
  destruct st as [l c lg]. cbn [node_list children logged] in *. subst c.
  reflexivity.
Qed.

(** The slip of lines 161 to 168: when no node carries the name and the
    world is not empty, the last node visited is the one removed. *)
Lemma remove_missed_nonempty (data : string) (st : state)
      (rest : list node) (last : node) :
  In data (node_list st) ->
  ~ Spec.carries data (children st) ->
  children st = rest ++ [last] ->
  exists l1 l2,
    node_list st = l1 ++ data :: l2
    /\ ~ In data l1
    /\ remove_imported_node_callback data st =
       (Returned tt,
        mkState (l1 ++ l2) rest (logged st ++ [Msg.removed data])).
Proof.
  intros Hused Hmiss Hch.
  destruct (list_remove_first _ _ Hused) as (l1 & l2 & Hl & Hl1 & Hrm).
  exists l1, l2. repeat split; try assumption.
  unfold remove_imported_node_callback.
  unfold bind at 1. cbn [get_node_list].
  rewrite (proj2 (mem_In _ _) Hused).
  destruct st as [l c lg]. cbn [node_list children logged] in *.
  run_handler. rewrite (node_after_loop_missed data c 0 None Hmiss).
  assert (exists n c', c = n :: c' /\ length c' = length rest) as (n & c' & -> & Hlen).
  { subst c. destruct rest as [|r rest]; cbn [app].
    - now exists last, [].
    - exists r, (rest ++ [last]). split; [reflexivity|].
      rewrite length_app. cbn [length]. lia. }
  cbn [Nat.add]. rewrite Hrm, Hlen, Hch, remove_at_middle, app_nil_r.
  reflexivity.
Qed.

(** ** Properties checked against the specification *)

(** C1 (the code departs from the claim).  The list of names holds armA,
    no node of the world carries that name, and the world is not empty:
    the removal callback removes the last node of the world, drops armA
    from the list of names and logs that it has removed the node. *)
Theorem remove_desync_removes_last_node :
  In "armA" (node_list Demo.desync)
  /\ ~ Spec.carries "armA" (children Demo.desync)
  /\ remove_imported_node_callback "armA" Demo.desync
     = (Returned tt, mkState [] [Demo.crate] [Msg.removed "armA"]).
Proof.
  repeat split.
  - now left.
  - intros (n & [<-|[<-|[]]] & H); discriminate.
Qed.

(** C2 (the code departs from the claim).  On a non-empty fragment without
    a name field the search gives no match and the callback raises instead
    of answering; on a fragment whose only name field holds abc123 the
    name taken is abc123. *)
Theorem spawn_nameless_raises :
  (forall nodes_of_string st,
      spawn_node_from_string_callback nodes_of_string Demo.nameless st
      = (Raised AttributeError_group, st))
  /\ Re.search Re.name_pattern Demo.nameless = None
  /\ spawn_name (SpawnNodeFromString Demo.abc123) = Some "abc123".
Proof. repeat split. Qed.

(** C3, the claim as it stands fails: the converter raises on a request,
    and the callback does not answer success=false. *)
Lemma converter_failure_not_rejected :
  (exists e, Demo.convertUrdfFile (keyword_args Demo.lost (urdf_path Demo.lost))
             = Raised e)
  /\ fst (spawn_urdf_robot_callback Demo.convertUrdfFile Demo.convertUrdfContent
                                    Demo.nodes_of_string Demo.lost Demo.empty)
     <> Returned (mkResponse false).
Proof.
  split.
  - eexists. reflexivity.
  - vm_compute. discriminate.
Qed.

(** C3, amended.  For every robot-description request with a non-empty
    unused name on which the converter it selects raises, the exception
    leaves the callback: no response is returned, and the list of names,
    the world and the log are as before. *)
Theorem converter_failure_propagates
        (convertUrdfFile : convert_args -> outcome string)
        (convertUrdfContent : convert_args -> option string -> outcome string)
        (nodes_of_string : string -> list node)
        (robot : UrdfRobot) (st : state) (e : exn) :
  name robot <> EmptyString ->
  ~ In (name robot) (node_list st) ->
  (urdf_path robot <> EmptyString
   /\ convertUrdfFile (keyword_args robot (urdf_path robot)) = Raised e)
  \/ (urdf_path robot = EmptyString
      /\ robot_description robot <> EmptyString
      /\ convertUrdfContent (keyword_args robot (robot_description robot))
                            (or_None (relative_path_prefix robot)) = Raised e) ->
  spawn_urdf_robot_callback convertUrdfFile convertUrdfContent nodes_of_string
                            robot st
  = (Raised e, st).
Proof.
  intros Hname Hfresh Hraise.
  rewrite (spawn_urdf_validated _ _ _ _ _ Hname Hfresh). unfold conversion.
  destruct Hraise as [(Hpath & Hconv)|(Hpath & Hdesc & Hconv)].
  - now rewrite (truthy_nonempty _ Hpath), Hconv.
  - rewrite Hpath. cbn [Text.truthy].
    now rewrite (truthy_nonempty _ Hdesc), Hconv.
Qed.

Lemma converter_failure_propagates_witness :
  spawn_urdf_robot_callback Demo.convertUrdfFile Demo.convertUrdfContent
                            Demo.nodes_of_string Demo.lost Demo.empty
  = (Raised (ConverterError "Input file does not exist."), Demo.empty).
Proof.
  apply converter_failure_propagates.
  - discriminate.
  - simpl. tauto.
  - left. split; [discriminate | reflexivity].
Defined.

(** C5.  A raw-fragment request passes validation and no node of the
    world, after the insertion, carries the extracted name: the callback
    answers success=false, the list of names is the one from before the
    request and does not hold the name, and the world keeps the nodes the
    insertion added. *)
Theorem spawn_string_rolls_back
        (nodes_of_string : string -> list node)
        (data matched : string) (st : state) :
  data <> EmptyString ->
  Re.search Re.name_pattern data = Some matched ->
  strip_match matched <> EmptyString ->
  ~ In (strip_match matched) (node_list st) ->
  ~ Spec.carries (strip_match matched) (children st ++ nodes_of_string data) ->
  exists st',
    spawn_node_from_string_callback nodes_of_string data st
    = (Returned (mkResponse false), st')
    /\ ~ In (strip_match matched) (node_list st')
    /\ node_list st' = node_list st
    /\ children st' = children st ++ nodes_of_string data
    /\ logged st' = logged st ++ [Msg.could_not_import (strip_match matched)].
Proof.
  intros Hdata Hsearch Hname Hfresh Hmiss.
  rewrite (spawn_string_validated _ _ _ _ Hdata Hsearch Hname Hfresh).
  destruct (node_imported_successfully _ _) eqn:E.
  - apply imported_iff_carries in E. contradiction.
  - eexists. split; [reflexivity|]. cbn [node_list children logged]. auto.
Qed.

Lemma spawn_string_rolls_back_witness :
  exists st',
    spawn_node_from_string_callback Demo.no_nodes Demo.box_1 Demo.empty
    = (Returned (mkResponse false), st')
    /\ ~ In "box_1" (node_list st')
    /\ node_list st' = []
    /\ children st' = []
    /\ logged st' = [Msg.could_not_import "box_1"].
Proof.
  apply (spawn_string_rolls_back Demo.no_nodes Demo.box_1
                                 ("name " +++ Msg.q "box_1") Demo.empty).
  - discriminate.
  - reflexivity.
  - discriminate.
  - simpl. tauto.
  - intros (n & [] & _).
Defined.

(** C6, the claim as it stands fails: a name that is not in the list of
    names is removed and no line is logged. *)
Lemma remove_unregistered_logs_nothing :
  ~ In "ghost" (node_list Demo.desync)
  /\ ~ (exists line,
           logged (snd (remove_imported_node_callback "ghost" Demo.desync))
           = logged Demo.desync ++ [line]).
Proof.
  split.
  - simpl. intros [H|[]]. discriminate.
  - intros (line & H). vm_compute in H. discriminate.
Qed.

(** C6, amended.  For every removal request whose name is not in the list
    of names the callback returns without an exception and leaves the list
    of names, the world and the log as they were: no line is logged. *)
Theorem remove_unregistered_is_silent (data : string) (st : state) :
  ~ In data (node_list st) ->
  remove_imported_node_callback data st = (Returned tt, st).
Proof. exact (remove_unknown data st). Qed.

Lemma remove_unregistered_is_silent_witness :
  remove_imported_node_callback "ghost" Demo.desync = (Returned tt, Demo.desync).
Proof.
  apply remove_unregistered_is_silent.
  simpl. intros [H|[]]. discriminate.
Defined.

(** C7.  A removal request whose name is in the list of names and is
    carried by some node of the world: the first such node in scan order,
    and no other, leaves the world; the first entry of that name leaves
    the list of names, which no longer holds the name when it held it
    once; the callback logs the removal. *)
Theorem remove_registered_removes_first_match (data : string) (st : state) :
  In data (node_list st) ->
  Spec.carries data (children st) ->
  exists before n after l1 l2,
    children st = before ++ n :: after
    /\ getField_name n = Some data
    /\ (forall m, In m before -> getField_name m <> Some data)
    /\ node_list st = l1 ++ data :: l2
    /\ ~ In data l1
    /\ remove_imported_node_callback data st
       = (Returned tt,
          mkState (l1 ++ l2) (before ++ after) (logged st ++ [Msg.removed data]))
    /\ (NoDup (node_list st) -> ~ In data (l1 ++ l2)).
Proof.
  intros Hused Hcarries.
  destruct (remove_found data st Hused Hcarries)
    as (before & n & after & l1 & l2 & Hch & Hn & Hbefore & Hl & Hl1 & Hrun).
  exists before, n, after, l1, l2. repeat split; try assumption.
  intros Hnd Hin. rewrite Hl in Hnd. apply NoDup_remove_2 in Hnd. contradiction.
Qed.

Lemma remove_registered_removes_first_match_witness :
  exists before n after l1 l2,
    [Demo.crate; Demo.wall; Demo.crate] = before ++ n :: after
    /\ getField_name n = Some "crate"
    /\ (forall m, In m before -> getField_name m <> Some "crate")
    /\ ["armA"; "crate"] = l1 ++ "crate" :: l2
    /\ ~ In "crate" l1
    /\ remove_imported_node_callback
         "crate" (mkState ["armA"; "crate"] [Demo.crate; Demo.wall; Demo.crate] [])
       = (Returned tt,
          mkState (l1 ++ l2) (before ++ after) ([] ++ [Msg.removed "crate"]))
    /\ (NoDup ["armA"; "crate"] -> ~ In "crate" (l1 ++ l2)).
Proof.
  apply (remove_registered_removes_first_match
           "crate" (mkState ["armA"; "crate"] [Demo.crate; Demo.wall; Demo.crate] [])).
  - simpl. tauto.
  - exists Demo.crate. split; [now left | reflexivity].
Defined.

(** C8.  A robot-description request with a non-empty unused name: when a
    file path is present the file converter is the one called, otherwise,
    when a description is present, the content converter; both receive the
    name and the options with their defaults; when the converter gives a
    fragment, the nodes of the fragment are appended to the world, the
    name is appended to the list of names whatever the world then holds,
    and the answer is success=true. *)
Theorem spawn_urdf_imports
        (convertUrdfFile : convert_args -> outcome string)
        (convertUrdfContent : convert_args -> option string -> outcome string)
        (nodes_of_string : string -> list node)
        (robot : UrdfRobot) (st : state) :
  name robot <> EmptyString ->
  ~ In (name robot) (node_list st) ->
  (forall robot_string,
      urdf_path robot <> EmptyString ->
      convertUrdfFile (keyword_args robot (urdf_path robot)) = Returned robot_string ->
      spawn_urdf_robot_callback convertUrdfFile convertUrdfContent nodes_of_string
                                robot st
      = (Returned (mkResponse true),
         mkState (node_list st ++ [name robot])
                 (children st ++ nodes_of_string robot_string)
                 (logged st ++ [Msg.imported_robot (name robot)])))
  /\ (forall robot_string,
         urdf_path robot = EmptyString ->
         robot_description robot <> EmptyString ->
         convertUrdfContent (keyword_args robot (robot_description robot))
                            (or_None (relative_path_prefix robot))
         = Returned robot_string ->
         spawn_urdf_robot_callback convertUrdfFile convertUrdfContent nodes_of_string
                                   robot st
         = (Returned (mkResponse true),
            mkState (node_list st ++ [name robot])
                    (children st ++ nodes_of_string robot_string)
                    (logged st ++ [Msg.imported_robot (name robot)])))
  /\ (forall source,
         let a := keyword_args robot source in
         input a = source
         /\ robotName a = name robot
         /\ initTranslation a
            = (if String.eqb (translation robot) EmptyString
               then "0 0 0" else translation robot)
         /\ initRotation a
            = (if String.eqb (rotation robot) EmptyString
               then "0 0 1 0" else rotation robot)
         /\ arg_normal a = normal robot
         /\ boxCollision a = box_collision robot).
Proof.
  intros Hname Hfresh. repeat split.
  - intros robot_string Hpath Hconv.
    rewrite (spawn_urdf_validated _ _ _ _ _ Hname Hfresh). unfold conversion.
    now rewrite (truthy_nonempty _ Hpath), Hconv.
  - intros robot_string Hpath Hdesc Hconv.
    rewrite (spawn_urdf_validated _ _ _ _ _ Hname Hfresh). unfold conversion.
    rewrite Hpath. cbn [Text.truthy].
    now rewrite (truthy_nonempty _ Hdesc), Hconv.
  - cbn. now apply or_default_nonempty.
  - cbn. unfold or_default. now destruct (translation robot).
  - cbn. unfold or_default. now destruct (rotation robot).
  - cbn. now destruct (normal robot).
  - cbn. now destruct (box_collision robot).
Qed.

Lemma spawn_urdf_imports_witness :
  spawn_urdf_robot_callback Demo.convertUrdfFile Demo.convertUrdfContent
                            Demo.no_nodes Demo.armA Demo.empty
  = (Returned (mkResponse true),
     mkState ["armA"] [] [Msg.imported_robot "armA"])
  /\ initTranslation (keyword_args Demo.armA "arm.urdf") = "0 0 0"
  /\ initRotation (keyword_args Demo.armA "arm.urdf") = "0 0 1 0".
Proof.
  destruct (spawn_urdf_imports Demo.convertUrdfFile Demo.convertUrdfContent
                               Demo.no_nodes Demo.armA Demo.empty)
    as (Hfile & _ & Hargs).
  - discriminate.
  - simpl. tauto.
  - split.
    + apply (Hfile "Robot armA"); [discriminate | reflexivity].
    + destruct (Hargs "arm.urdf") as (_ & _ & Ht & Hr & _). split; assumption.
Defined.

(** C9.  On a raw-fragment request that passes validation the answer is
    success=true exactly when some node of the world, after the
    insertion, carries the extracted name, whichever node that is; so
    when a node of the world carried the name before the request, the
    answer is success=true and the name is recorded, also when the
    insertion added no node at all. *)
Theorem spawn_string_verifies_by_name_only
        (nodes_of_string : string -> list node)
        (data matched : string) (st : state) :
  data <> EmptyString ->
  Re.search Re.name_pattern data = Some matched ->
  strip_match matched <> EmptyString ->
  ~ In (strip_match matched) (node_list st) ->
  let result := spawn_node_from_string_callback nodes_of_string data st in
  (fst result = Returned (mkResponse true)
   <-> Spec.carries (strip_match matched) (children st ++ nodes_of_string data))
  /\ (Spec.carries (strip_match matched) (children st) ->
      result
      = (Returned (mkResponse true),
         mkState (node_list st ++ [strip_match matched])
                 (children st ++ nodes_of_string data)
                 (logged st ++ [Msg.imported_node (strip_match matched)])))
  /\ (Spec.carries (strip_match matched) (children st) ->
      nodes_of_string data = [] ->
      fst result = Returned (mkResponse true)
      /\ In (strip_match matched) (node_list (snd result))
      /\ children (snd result) = children st).
Proof.
  intros Hdata Hsearch Hname Hfresh result. subst result.
  rewrite (spawn_string_validated _ _ _ _ Hdata Hsearch Hname Hfresh).
  assert (Spec.carries (strip_match matched) (children st) ->
          node_imported_successfully (strip_match matched)
                                     (children st ++ nodes_of_string data) = true)
    as Hbefore.
  { intros (n & Hn & Hf). apply imported_iff_carries.
    exists n. split; [apply in_or_app; now left | assumption]. }
  repeat split.
  - destruct (node_imported_successfully _ _) eqn:E.
    + intros _. now apply imported_iff_carries.
    + discriminate.
  - intros Hc. apply imported_iff_carries in Hc. now rewrite Hc.
  - intros Hc. now rewrite (Hbefore Hc).
  - rewrite (Hbefore H). reflexivity.
  - rewrite (Hbefore H). cbn [snd node_list]. apply in_or_app. right. now left.
  - rewrite (Hbefore H). cbn [snd children]. rewrite H0. apply app_nil_r.
Qed.

Lemma spawn_string_verifies_by_name_only_witness :
  let st := mkState [] [mkNode "Solid" (Some "box_1")] [] in
  let result := spawn_node_from_string_callback Demo.no_nodes Demo.box_1 st in
  fst result = Returned (mkResponse true)
  /\ In "box_1" (node_list (snd result))
  /\ children (snd result) = children st.
Proof.
  intros st result.
  destruct (spawn_string_verifies_by_name_only
              Demo.no_nodes Demo.box_1 ("name " +++ Msg.q "box_1") st)
    as (_ & _ & H).
  - discriminate.
  - reflexivity.
  - discriminate.
  - simpl. tauto.
  - apply H.
    + exists (mkNode "Solid" (Some "box_1")). split; [now left | reflexivity].
    + reflexivity.
Defined.

(** C10.  The name a raw-fragment request works with is the identifier of
    the first name field of the text, wherever that field stands; on a
    validated request it is that name which is looked up in the list of
    names, recorded and searched in the world; for a fragment whose first
    name field belongs to a nested node the name is the nested one. *)
Theorem spawn_string_takes_first_name_field :
  (forall s id,
      spawn_name (SpawnNodeFromString s) = Some id
      <-> exists pre post, Spec.first_occurrence pre id post s)
  /\ (forall nodes_of_string pre id post s st,
         Spec.first_occurrence pre id post s ->
         id <> EmptyString ->
         (In id (node_list st) ->
          fst (spawn_node_from_string_callback nodes_of_string s st)
          = Returned (mkResponse false))
         /\ (~ In id (node_list st) ->
             Spec.carries id (children st ++ nodes_of_string s) ->
             spawn_node_from_string_callback nodes_of_string s st
             = (Returned (mkResponse true),
                mkState (node_list st ++ [id])
                        (children st ++ nodes_of_string s)
                        (logged st ++ [Msg.imported_node id]))))
  /\ spawn_name (SpawnNodeFromString Demo.nested) = Some "inner"
  /\ spawn_node_from_string_callback Demo.nodes_of_string Demo.nested Demo.empty
     = (Returned (mkResponse true),
        mkState ["inner"] [mkNode "Solid" (Some "inner")]
                [Msg.imported_node "inner"]).
Proof.
  split; [exact spawn_name_first_occurrence|].
  split; [|split; reflexivity].
  intros nodes_of_string pre id post s st Hfirst Hid.
  pose proof (search_complete _ _ _ _ Hfirst) as Hsearch.
  pose proof (strip_match_name_field id (proj1 (proj1 Hfirst))) as Hstrip.
  assert (s <> EmptyString) as Hs.
  { destruct Hfirst as ((_ & ->) & _). destruct pre; discriminate. }
  split.
  - intros Hused. rewrite <- Hstrip in Hused.
    destruct (spawn_string_duplicate nodes_of_string _ _ _ Hsearch Hused)
      as (line & ->).
    reflexivity.
  - intros Hfresh Hc.
    rewrite (spawn_string_validated nodes_of_string s (Spec.name_field id) st);
      rewrite ?Hstrip; try assumption.
    apply imported_iff_carries in Hc. now rewrite Hc.
Qed.

Lemma spawn_string_takes_first_name_field_witness :
  spawn_node_from_string_callback Demo.nodes_of_string Demo.nested Demo.empty
  = (Returned (mkResponse true),
     mkState ([] ++ ["inner"])
             ([] ++ Demo.nodes_of_string Demo.nested)
             ([] ++ [Msg.imported_node "inner"])).
Proof.
  destruct spawn_string_takes_first_name_field as (Hname & Hrun & _).
  destruct (proj1 (Hname Demo.nested "inner") eq_refl) as (pre & post & Hfirst).
  destruct (Hrun Demo.nodes_of_string pre "inner" post Demo.nested Demo.empty Hfirst)
    as (_ & H).
  - discriminate.
  - apply H.
    + simpl. tauto.
    + exists (mkNode "Solid" (Some "inner")). split; [now left | reflexivity].
Defined.

(** ** Sequences of spawn requests *)

Section Sequences.

Variable convertUrdfFile : convert_args -> outcome string.
Variable convertUrdfContent : convert_args -> option string -> outcome string.
Variable nodes_of_string : string -> list node.

Local Notation "'spawn_any'" :=
  (spawn convertUrdfFile convertUrdfContent nodes_of_string).
Local Notation "'serve_all'" :=
  (serve convertUrdfFile convertUrdfContent nodes_of_string).

(** A spawn request that is answered keeps the names recorded so far; when
    it succeeds, its name was not recorded before and is recorded after. *)
Lemma spawn_step (r : spawn_request) (st st' : state) (resp : response) :
  spawn_any r st = (Returned resp, st') ->
  incl (node_list st) (node_list st')
  /\ (success resp = true ->
      exists n, spawn_name r = Some n
                /\ ~ In n (node_list st) /\ In n (node_list st')).
Proof.
  destruct r as [robot|data]; cbn [spawn spawn_name].
  - destruct (spawn_urdf_cases convertUrdfFile convertUrdfContent nodes_of_string
                               robot st) as [(line & ->)|(Hname & Hfresh)].
    + intros [= <- <-]. split; [apply incl_refl | discriminate].
    + rewrite (spawn_urdf_validated _ _ _ _ _ Hname Hfresh).
      destruct (conversion _ _ robot) as [[robot_string|e]|].
      * intros [= <- <-]. cbn [node_list]. split.
        -- now apply incl_appl, incl_refl.
        -- intros _. exists (name robot). repeat split; [assumption|].
           apply in_or_app. right. now left.
      * discriminate.
      * intros [= <- <-]. split; [apply incl_refl | discriminate].
  - destruct (spawn_string_cases nodes_of_string data st)
      as [(line & ->)|[(_ & _ & ->)|(matched & Hdata & Hsearch & Hname & Hfresh)]].
    + intros [= <- <-]. split; [apply incl_refl | discriminate].
    + discriminate.
    + rewrite (spawn_string_validated _ _ _ _ Hdata Hsearch Hname Hfresh), Hsearch.
      destruct (node_imported_successfully _ _).
      * intros [= <- <-]. cbn [node_list option_map]. split.
        -- now apply incl_appl, incl_refl.
        -- intros _. exists (strip_match matched). repeat split; [assumption|].
           apply in_or_app. right. now left.
      * intros [= <- <-]. split; [apply incl_refl | discriminate].
Qed.

(** The names that succeed along a run are pairwise distinct and were not
    recorded when the run began. *)
Lemma serve_fresh (rs : list spawn_request) (st : state) :
  NoDup (spawned_names (fst (serve_all rs st)))
  /\ forall n, In n (spawned_names (fst (serve_all rs st))) ->
               ~ In n (node_list st).
Proof.
  revert st. induction rs as [|r rs IH]; intros st; cbn [serve].
  - split; [constructor | intros n []].
  - destruct (spawn_any r st) as [[resp|e] st'] eqn:E.
    + destruct (spawn_step _ _ _ _ E) as (Hincl & Hsucc).
      destruct (IH st') as (Hnd & Hnew).
      destruct (serve_all rs st') as [served st''].
      cbn [fst spawned_names] in *.
      destruct (success resp).
      * destruct (Hsucc eq_refl) as (n & -> & Hfresh & Hin).
        split.
        -- constructor; [|assumption]. intros H. now apply (Hnew n).
        -- intros m [<-|Hm]; [assumption|].
           intros H. apply (Hnew m Hm). now apply Hincl.
      * split; [assumption|].
        intros m Hm H. apply (Hnew m Hm). now apply Hincl.
    + split; [constructor | intros n []].
Qed.

(** The list of names stays free of repetitions under spawn requests. *)
Lemma spawn_keeps_NoDup (r : spawn_request) (st : state) :
  NoDup (node_list st) -> NoDup (node_list (snd (spawn_any r st))).
Proof.
  intros Hnd.
  assert (forall x, ~ In x (node_list st) -> NoDup (node_list st ++ [x])) as Hsnoc.
  { intros x Hx. apply NoDup_app; [assumption | repeat constructor; intros [] |].
    intros y Hy [<-|[]]. contradiction. }
  destruct r as [robot|data]; cbn [spawn].
  - destruct (spawn_urdf_cases convertUrdfFile convertUrdfContent nodes_of_string
                               robot st) as [(line & ->)|(Hname & Hfresh)];
      [assumption|].
    rewrite (spawn_urdf_validated _ _ _ _ _ Hname Hfresh).
    destruct (conversion _ _ robot) as [[robot_string|e]|]; cbn [snd node_list];
      auto.
  - destruct (spawn_string_cases nodes_of_string data st)
      as [(line & ->)|[(_ & _ & ->)|(matched & Hdata & Hsearch & Hname & Hfresh)]];
      try assumption.
    rewrite (spawn_string_validated _ _ _ _ Hdata Hsearch Hname Hfresh).
    destruct (node_imported_successfully _ _); cbn [snd node_list]; auto.
Qed.

End Sequences.

(** ... and under removal requests. *)
Lemma remove_keeps_NoDup (data : string) (st : state) :
  NoDup (node_list st) ->
  NoDup (node_list (snd (remove_imported_node_callback data st))).
Proof.
  intros Hnd.
  destruct (mem data (node_list st)) eqn:Hmem.
  - apply mem_In in Hmem.
    destruct (node_imported_successfully data (children st)) eqn:Hc.
    + apply imported_iff_carries in Hc.
      destruct (remove_found data st Hmem Hc)
        as (before & n & after & l1 & l2 & _ & _ & _ & Hl & _ & ->).
      cbn [snd node_list]. rewrite Hl in Hnd. now apply NoDup_remove_1 in Hnd.
    + assert (~ Spec.carries data (children st)) as Hmiss.
      { intros H. apply imported_iff_carries in H. congruence. }
      destruct (children st) as [|c cs] eqn:Hch.
      * now rewrite (remove_missed_empty data st Hmem Hch).
      * destruct (exists_last (l := c :: cs)) as (rest & last & Hlast);
          [discriminate|].
        rewrite <- Hch in Hmiss. rewrite Hlast in Hch.
        destruct (remove_missed_nonempty data st rest last Hmem Hmiss Hch)
          as (l1 & l2 & Hl & _ & ->).
        cbn [snd node_list]. rewrite Hl in Hnd. now apply NoDup_remove_1 in Hnd.
  - apply mem_not_In in Hmem. now rewrite (remove_unknown data st Hmem).
Qed.

(** C4.  Along every sequence of spawn requests, of either kind and from
    any state, no two requests succeed with the same name; a request
    whose requested or extracted name is in the list of names is answered
    success=false, and neither the list of names nor the world changes. *)
Theorem spawn_names_unique
        (convertUrdfFile : convert_args -> outcome string)
        (convertUrdfContent : convert_args -> option string -> outcome string)
        (nodes_of_string : string -> list node) :
  (forall rs st,
      NoDup (spawned_names
               (fst (serve convertUrdfFile convertUrdfContent nodes_of_string rs st))))
  /\ (forall robot st,
         In (name robot) (node_list st) ->
         exists line,
           spawn_urdf_robot_callback convertUrdfFile convertUrdfContent
                                     nodes_of_string robot st
           = (Returned (mkResponse false),
              mkState (node_list st) (children st) (logged st ++ [line])))
  /\ (forall data n st,
         spawn_name (SpawnNodeFromString data) = Some n ->
         In n (node_list st) ->
         exists line,
           spawn_node_from_string_callback nodes_of_string data st
           = (Returned (mkResponse false),
              mkState (node_list st) (children st) (logged st ++ [line]))).
Proof.
  repeat split.
  - intros rs st. apply serve_fresh.
  - intros robot st. apply spawn_urdf_duplicate.
  - intros data n st Hn Hused. cbn [spawn_name] in Hn.
    destruct (Re.search Re.name_pattern data) as [matched|] eqn:Hsearch;
      [|discriminate].
    injection Hn as <-. now apply (spawn_string_duplicate _ _ matched).
Qed.

Lemma spawn_names_unique_witness :
  (exists line,
      spawn_urdf_robot_callback Demo.convertUrdfFile Demo.convertUrdfContent
                                Demo.nodes_of_string Demo.armA Demo.desync
      = (Returned (mkResponse false),
         mkState (node_list Demo.desync) (children Demo.desync)
                 (logged Demo.desync ++ [line])))
  /\ (exists line,
         spawn_node_from_string_callback
           Demo.nodes_of_string Demo.box_1 (mkState ["box_1"] [] [])
         = (Returned (mkResponse false), mkState ["box_1"] [] ([] ++ [line]))).
Proof.
  destruct (spawn_names_unique Demo.convertUrdfFile Demo.convertUrdfContent
                               Demo.nodes_of_string) as (_ & Hurdf & Hstring).
  split.
  - apply Hurdf. simpl. tauto.
  - apply (Hstring Demo.box_1 "box_1" (mkState ["box_1"] [] [])).
    + reflexivity.
    + simpl. tauto.
Defined.

(** ** Further properties of the callbacks *)

Lemma search_finds_occurrence (pre id post s : string) :
  Spec.occurs_at pre id post s ->
  exists m, Re.search Re.name_pattern s = Some m.
Proof.
  revert s; induction pre as [|c pre IH]; intros s Hocc.
  - exists (Spec.name_field id).
    assert (Re.match_at Re.name_pattern s = Some (Spec.name_field id)) as E.
    { apply match_name_pattern. now exists id, post. }
    destruct s; cbn [Re.search]; now rewrite E.
  - destruct s as [|c' s]; [destruct Hocc as (_ & Hs); discriminate|].
    pose proof (occurs_at_head _ _ _ _ _ _ Hocc) as <-.
    destruct (IH s (proj1 (occurs_at_cons _ _ _ _ _) Hocc)) as (m & Hm).
    cbn [Re.search].
    destruct (Re.match_at Re.name_pattern (String c s)) as [m0|].
    + now exists m0.
    + now exists m.
Qed.

Lemma search_none_iff (s : string) :
  Re.search Re.name_pattern s = None <->
  forall pre id post, ~ Spec.occurs_at pre id post s.
Proof.
  split.
  - intros Hnone pre id post Hocc.
    destruct (search_finds_occurrence _ _ _ _ Hocc) as (m & Hm). congruence.
  - intros Hno. destruct (Re.search Re.name_pattern s) as [m|] eqn:E; [|reflexivity].
    apply search_sound in E as (pre & id & post & (Hocc & _) & _).
    now elim (Hno pre id post).
Qed.

(** The removal callback ends in one of three ways. *)
Lemma remove_cases (data : string) (st : state) :
  (~ In data (node_list st)
   /\ remove_imported_node_callback data st = (Returned tt, st))
  \/ (In data (node_list st) /\ children st = []
      /\ remove_imported_node_callback data st
         = (Returned tt,
            mkState (node_list st) [] (logged st ++ [Msg.not_found data])))
  \/ (In data (node_list st)
      /\ exists l1 l2 before n after,
          node_list st = l1 ++ data :: l2
          /\ ~ In data l1
          /\ children st = before ++ n :: after
          /\ remove_imported_node_callback data st
             = (Returned tt,
                mkState (l1 ++ l2) (before ++ after)
                        (logged st ++ [Msg.removed data]))).
Proof.
  destruct (mem data (node_list st)) eqn:Hmem.
  - apply mem_In in Hmem. right.
    destruct (node_imported_successfully data (children st)) eqn:Hc.
    + apply imported_iff_carries in Hc. right. split; [assumption|].
      destruct (remove_found data st Hmem Hc)
        as (before & n & after & l1 & l2 & Hch & _ & _ & Hl & Hl1 & Hrun).
      now exists l1, l2, before, n, after.
    + assert (~ Spec.carries data (children st)) as Hmiss.
      { intros H. apply imported_iff_carries in H. congruence. }
      destruct (children st) as [|c cs] eqn:Hch.
      * left. repeat split; [assumption|].
        now rewrite (remove_missed_empty data st Hmem Hch).
      * right. split; [assumption|].
        destruct (exists_last (l := c :: cs)) as (rest & last & Hlast);
          [discriminate|].
        rewrite <- Hch in Hmiss. rewrite Hlast in Hch.
        destruct (remove_missed_nonempty data st rest last Hmem Hmiss Hch)
          as (l1 & l2 & Hl & Hl1 & Hrun).
        exists l1, l2, rest, last, []. rewrite app_nil_r, <- Hlast.
        now rewrite Hlast.
  - apply mem_not_In in Hmem. left. split; [assumption|].
    now apply remove_unknown.
Qed.

Section Answers.

Variable convertUrdfFile : convert_args -> outcome string.
Variable convertUrdfContent : convert_args -> option string -> outcome string.
Variable nodes_of_string : string -> list node.

Local Notation "'spawn_urdf'" :=
  (spawn_urdf_robot_callback convertUrdfFile convertUrdfContent nodes_of_string).
Local Notation "'spawn_string'" :=
  (spawn_node_from_string_callback nodes_of_string).
Local Notation "'spawn_any'" :=
  (spawn convertUrdfFile convertUrdfContent nodes_of_string).

(** X1.  When the raw-fragment callback answers success=true, the name it
    has appended to the list of names is the non-empty identifier of the
    first name field of the text, it was not in the list before, and some
    node of the world, which now ends with the nodes of the fragment,
    carries it. *)
Theorem spawn_string_success_sound (data : string) (st st' : state) :
  spawn_string data st = (Returned (mkResponse true), st') ->
  exists id pre post,
    Spec.first_occurrence pre id post data
    /\ id <> EmptyString
    /\ ~ In id (node_list st)
    /\ node_list st' = node_list st ++ [id]
    /\ children st' = children st ++ nodes_of_string data
    /\ Spec.carries id (children st').
Proof.
  destruct (spawn_string_cases nodes_of_string data st)
    as [(line & ->)|[(_ & _ & ->)|(matched & Hdata & Hsearch & Hname & Hfresh)]];
    try discriminate.
  rewrite (spawn_string_validated _ _ _ _ Hdata Hsearch Hname Hfresh).
  destruct (node_imported_successfully _ _) eqn:E; [|discriminate].
  intros [= <-]. cbn [node_list children].
  destruct (search_sound _ _ Hsearch) as (pre & id & post & Hfirst & ->).
  rewrite (strip_match_name_field id (proj1 (proj1 Hfirst))) in *.
  exists id, pre, post. repeat split; try assumption; try apply Hfirst.
  now apply imported_iff_carries.
Qed.

(** X2.  The raw-fragment callback raises exactly on a non-empty text in
    which no name field occurs; the exception is the one of line 119 and
    the state is as before. *)
Theorem spawn_string_raises_iff_no_name_field (data : string) (st : state) :
  ((exists e st', spawn_string data st = (Raised e, st'))
   <-> (data <> EmptyString
        /\ forall pre id post, ~ Spec.occurs_at pre id post data))
  /\ (forall e st',
         spawn_string data st = (Raised e, st') ->
         e = AttributeError_group /\ st' = st).
Proof.
  destruct (spawn_string_cases nodes_of_string data st)
    as [(line & Hrun)|[(Hdata & Hnone & Hrun)|(matched & Hdata & Hsearch & Hname & Hfresh)]].
  - rewrite Hrun. split; [split|]; try discriminate.
    + intros (e & st' & [=]).
    + intros (Hdata & Hno). exfalso.
      unfold spawn_node_from_string_callback in Hrun.
      rewrite (proj2 (String.eqb_neq _ _) Hdata) in Hrun.
      rewrite (proj2 (search_none_iff data) Hno) in Hrun. discriminate.
  - rewrite Hrun. split; [split|].
    + intros _. split; [assumption | now apply search_none_iff].
    + intros _. now exists AttributeError_group, st.
    + intros e st' [= <- <-]. auto.
  - rewrite (spawn_string_validated _ _ _ _ Hdata Hsearch Hname Hfresh).
    split; [split|].
    + intros (e & st' & H). destruct (node_imported_successfully _ _); discriminate.
    + intros (_ & Hno). apply search_none_iff in Hno. congruence.
    + intros e st' H. destruct (node_imported_successfully _ _); discriminate.
Qed.

(** X3.  A text whose first name field is empty is turned down as an
    unnamed node: success=false, one log line, the list of names and the
    world untouched, whatever names are recorded. *)
Theorem spawn_string_empty_name_rejected (pre post s : string) (st : state) :
  Spec.first_occurrence pre EmptyString post s ->
  spawn_string s st
  = (Returned (mkResponse false),
     mkState (node_list st) (children st) (logged st ++ [Msg.unnamed_node])).
Proof.
  intros Hfirst.
  pose proof (search_complete _ _ _ _ Hfirst) as Hsearch.
  assert (s <> EmptyString) as Hs.
  { destruct Hfirst as ((_ & ->) & _). destruct pre; discriminate. }
  unfold spawn_node_from_string_callback.
  rewrite (proj2 (String.eqb_neq _ _) Hs), Hsearch.
  now rewrite (strip_match_name_field EmptyString eq_refl).
Qed.

(** X5.  A spawn request that is answered logs exactly one line, keeps
    every node of the world in place and only adds nodes at the end; the
    list of names is unchanged when the answer is success=false and has
    the name of the request appended when it is success=true. *)
Theorem spawn_answer_frame (r : spawn_request) (st st' : state) (resp : response) :
  spawn_any r st = (Returned resp, st') ->
  (exists line, logged st' = logged st ++ [line])
  /\ (exists added, children st' = children st ++ added)
  /\ (success resp = false -> node_list st' = node_list st)
  /\ (success resp = true ->
      exists n, spawn_name r = Some n /\ n <> EmptyString
                /\ node_list st' = node_list st ++ [n]).
Proof.
  assert (forall line,
             (exists line', logged st ++ [line] = logged st ++ [line'])
             /\ (exists added, children st = children st ++ added)) as Hsame.
  { intros line. split; [now exists line | exists []; now rewrite app_nil_r]. }
  destruct r as [robot|data]; cbn [spawn spawn_name].
  - destruct (spawn_urdf_cases convertUrdfFile convertUrdfContent nodes_of_string
                               robot st) as [(line & ->)|(Hname & Hfresh)].
    + intros [= <- <-]. cbn [logged children node_list success].
      destruct (Hsame line). repeat split; auto; discriminate.
    + rewrite (spawn_urdf_validated _ _ _ _ _ Hname Hfresh).
      destruct (conversion _ _ robot) as [[robot_string|e]|]; try discriminate;
        intros [= <- <-]; cbn [logged children node_list success].
      * repeat split; eauto; try discriminate.
      * destruct (Hsame Msg.no_source). repeat split; auto; discriminate.
  - destruct (spawn_string_cases nodes_of_string data st)
      as [(line & ->)|[(_ & _ & ->)|(matched & Hdata & Hsearch & Hname & Hfresh)]];
      try discriminate.
    + intros [= <- <-]. cbn [logged children node_list success].
      destruct (Hsame line). repeat split; auto; discriminate.
    + rewrite (spawn_string_validated _ _ _ _ Hdata Hsearch Hname Hfresh), Hsearch.
      destruct (node_imported_successfully _ _); intros [= <- <-];
        cbn [logged children node_list success option_map];
        repeat split; eauto; discriminate.
Qed.

(** X6.  A spawn request that raises has changed nothing; the exception
    is the one the selected converter raised, or the one of line 119 on a
    text without a name field.  No other exception leaves a spawn
    callback. *)
Theorem spawn_raise_leaves_state (r : spawn_request) (st st' : state) (e : exn) :
  spawn_any r st = (Raised e, st') ->
  st' = st
  /\ match r with
     | SpawnUrdfRobot robot =>
         conversion convertUrdfFile convertUrdfContent robot = Some (Raised e)
     | SpawnNodeFromString data =>
         e = AttributeError_group /\ Re.search Re.name_pattern data = None
     end.
Proof.
  destruct r as [robot|data]; cbn [spawn].
  - destruct (spawn_urdf_cases convertUrdfFile convertUrdfContent nodes_of_string
                               robot st) as [(line & ->)|(Hname & Hfresh)];
      [discriminate|].
    rewrite (spawn_urdf_validated _ _ _ _ _ Hname Hfresh).
    destruct (conversion _ _ robot) as [[robot_string|e']|]; try discriminate.
    intros [= <- <-]. auto.
  - destruct (spawn_string_cases nodes_of_string data st)
      as [(line & ->)|[(_ & Hnone & ->)|(matched & Hdata & Hsearch & Hname & Hfresh)]];
      try discriminate.
    + intros [= <- <-]. auto.
    + rewrite (spawn_string_validated _ _ _ _ Hdata Hsearch Hname Hfresh).
      destruct (node_imported_successfully _ _); discriminate.
Qed.

End Answers.

Lemma spawn_string_success_sound_witness :
  exists id pre post,
    Spec.first_occurrence pre id post Demo.box_1
    /\ id <> EmptyString
    /\ ~ In id (node_list Demo.empty)
    /\ node_list (mkState ["box_1"] [mkNode "Solid" (Some "box_1")]
                          [Msg.imported_node "box_1"])
       = node_list Demo.empty ++ [id]
    /\ children (mkState ["box_1"] [mkNode "Solid" (Some "box_1")]
                         [Msg.imported_node "box_1"])
       = children Demo.empty ++ Demo.nodes_of_string Demo.box_1
    /\ Spec.carries id (children (mkState ["box_1"] [mkNode "Solid" (Some "box_1")]
                                          [Msg.imported_node "box_1"])).
Proof.
  apply (spawn_string_success_sound Demo.nodes_of_string Demo.box_1 Demo.empty).
  reflexivity.
Defined.

Lemma spawn_string_raises_iff_no_name_field_witness :
  Demo.nameless <> EmptyString
  /\ forall pre id post, ~ Spec.occurs_at pre id post Demo.nameless.
Proof.
  apply (proj1 (spawn_string_raises_iff_no_name_field
                  Demo.no_nodes Demo.nameless Demo.empty)).
  exists AttributeError_group, Demo.empty. reflexivity.
Defined.

Lemma spawn_string_empty_name_rejected_witness :
  spawn_node_from_string_callback
    Demo.nodes_of_string ("Solid { name " +++ Msg.q EmptyString +++ " }") Demo.desync
  = (Returned (mkResponse false),
     mkState (node_list Demo.desync) (children Demo.desync)
             (logged Demo.desync ++ [Msg.unnamed_node])).
Proof.
  destruct (proj1 (spawn_name_first_occurrence
                     ("Solid { name " +++ Msg.q EmptyString +++ " }") EmptyString)
                  eq_refl) as (pre & post & Hfirst).
  exact (spawn_string_empty_name_rejected Demo.nodes_of_string pre post _
                                          Demo.desync Hfirst).
Defined.

Lemma spawn_answer_frame_witness :
  (exists line, [Msg.imported_robot "armA"] = logged Demo.empty ++ [line])
  /\ (exists added, [mkNode "Solid" None] = children Demo.empty ++ added)
  /\ (true = false -> ["armA"] = node_list Demo.empty)
  /\ (true = true ->
      exists n, spawn_name (SpawnUrdfRobot Demo.armA) = Some n /\ n <> EmptyString
                /\ ["armA"] = node_list Demo.empty ++ [n]).
Proof.
  apply (spawn_answer_frame Demo.convertUrdfFile Demo.convertUrdfContent
                            Demo.nodes_of_string (SpawnUrdfRobot Demo.armA)
                            Demo.empty
                            (mkState ["armA"] [mkNode "Solid" None]
                                     [Msg.imported_robot "armA"])
                            (mkResponse true)).
  reflexivity.
Defined.

Lemma spawn_raise_leaves_state_witness :
  Demo.desync = Demo.desync
  /\ conversion Demo.convertUrdfFile Demo.convertUrdfContent Demo.lost
     = Some (Raised (ConverterError "Input file does not exist.")).
Proof.
  apply (spawn_raise_leaves_state Demo.convertUrdfFile Demo.convertUrdfContent
                                  Demo.nodes_of_string (SpawnUrdfRobot Demo.lost)
                                  Demo.desync Demo.desync).
  reflexivity.
Defined.

(** ** Further properties of the removal *)


(** X7.  The list of names has no repetition and holds the name, and the
    world is not empty: after one removal the name is no longer in the
    list, and removing it again changes nothing and logs nothing. *)
Theorem remove_twice (data : string) (st : state) :
  NoDup (node_list st) ->
  In data (node_list st) ->
  children st <> [] ->
  let st1 := snd (remove_imported_node_callback data st) in
  ~ In data (node_list st1)
  /\ remove_imported_node_callback data st1 = (Returned tt, st1).
Proof.
  intros Hnd Hin Hch st1.
  assert (~ In data (node_list st1)) as Hout.
  { subst st1.
    destruct (remove_cases data st)
      as [(Hno & _)|[(_ & Hempty & _)|(_ & l1 & l2 & before & n & after
                                         & Hl & _ & _ & ->)]];
      try contradiction.
    cbn [snd node_list]. rewrite Hl in Hnd. now apply NoDup_remove_2 in Hnd. }
  split; [assumption | now apply remove_unknown].
Qed.

Lemma remove_twice_witness :
  let st1 := snd (remove_imported_node_callback "armA" Demo.desync) in
  ~ In "armA" (node_list st1)
  /\ remove_imported_node_callback "armA" st1 = (Returned tt, st1).
Proof.
  apply remove_twice.
  - repeat constructor. intros [].
  - now left.
  - discriminate.
Defined.

(** X8.  The list of names holds the name and the world has no node at
    all: the removal logs that the node has not been found and keeps the
    name, so that a later spawn request of either kind for that name is
    answered success=false. *)
Theorem stale_name_stays_taken
        (convertUrdfFile : convert_args -> outcome string)
        (convertUrdfContent : convert_args -> option string -> outcome string)
        (nodes_of_string : string -> list node)
        (data : string) (st : state) (r : spawn_request) :
  In data (node_list st) ->
  children st = [] ->
  spawn_name r = Some data ->
  let st1 := snd (remove_imported_node_callback data st) in
  st1 = mkState (node_list st) [] (logged st ++ [Msg.not_found data])
  /\ exists line,
      spawn convertUrdfFile convertUrdfContent nodes_of_string r st1
      = (Returned (mkResponse false),
         mkState (node_list st1) (children st1) (logged st1 ++ [line])).
Proof.
  intros Hin Hch Hname st1. subst st1.
  rewrite (remove_missed_empty data st Hin Hch). cbn [snd].
  split; [reflexivity|].
  destruct r as [robot|text]; cbn [spawn spawn_name] in *.
  - injection Hname as <-. now apply spawn_urdf_duplicate.
  - destruct (Re.search Re.name_pattern text) as [matched|] eqn:Hsearch;
      [|discriminate].
    injection Hname as <-. now apply (spawn_string_duplicate _ _ matched).
Qed.

Lemma stale_name_stays_taken_witness :
  let st1 := snd (remove_imported_node_callback "box_1" (mkState ["box_1"] [] [])) in
  st1 = mkState ["box_1"] [] ([] ++ [Msg.not_found "box_1"])
  /\ exists line,
      spawn Demo.convertUrdfFile Demo.convertUrdfContent Demo.nodes_of_string
            (SpawnNodeFromString Demo.box_1) st1
      = (Returned (mkResponse false),
         mkState (node_list st1) (children st1) (logged st1 ++ [line])).
Proof.
  apply (stale_name_stays_taken Demo.convertUrdfFile Demo.convertUrdfContent
                                Demo.nodes_of_string "box_1"
                                (mkState ["box_1"] [] [])
                                (SpawnNodeFromString Demo.box_1)).
  - now left.
  - reflexivity.
  - reflexivity.
Defined.

(** ** Spawning, then removing *)

Lemma node_after_loop_at (target : string) (before after : list node) (n : node)
      (id_node : nat) (node : option nat) :
  (forall m, In m before -> getField_name m <> Some target) ->
  getField_name n = Some target ->
  node_after_loop target (before ++ n :: after) id_node node
  = Some (id_node + length before).
Proof.
  revert id_node node. induction before as [|b before IH];
    intros id_node node Hbefore Hn; cbn [app node_after_loop length].
  - rewrite (proj2 (name_field_is_true target n) Hn). f_equal. lia.
  - destruct (name_field_is target b) eqn:E.
    + apply name_field_is_true in E. elim (Hbefore b); [now left | assumption].
    + rewrite IH; [f_equal; lia | | assumption].
      intros m Hm. apply Hbefore. now right.
Qed.

(** The removal of a recorded name, in terms of the two scans it runs. *)
Lemma remove_run (data : string) (st : state) (names' : list string) :
  list_remove data (node_list st) = Some names' ->
  remove_imported_node_callback data st =
  match node_after_loop data (children st) 0 None with
  | Some i =>
      (Returned tt,
       mkState names' (remove_at i (children st)) (logged st ++ [Msg.removed data]))
  | None =>
      (Returned tt,
       mkState (node_list st) (children st) (logged st ++ [Msg.not_found data]))
  end.
Proof.
  intros Hrm.
  assert (In data (node_list st)) as Hin.
  { clear -Hrm. revert names' Hrm.
    induction (node_list st) as [|y l IH]; intros names' Hrm; [discriminate|].
    cbn [list_remove] in Hrm. destruct (String.eqb_spec y data) as [->|_].
    - now left.
    - right. destruct (list_remove data l) as [l'|]; [|discriminate].
      now apply (IH l'). }
  unfold remove_imported_node_callback.
  unfold bind at 1. cbn [get_node_list].
  rewrite (proj2 (mem_In _ _) Hin).
  destruct st as [l c lg]. cbn [node_list children logged] in *.
  run_handler. destruct (node_after_loop data c 0 None); [|reflexivity].
  now rewrite Hrm.
Qed.

Lemma not_carries_app (target : string) (xs ys : list node) :
  ~ Spec.carries target xs ->
  (forall m, In m ys -> getField_name m <> Some target) ->
  forall m, In m (xs ++ ys) -> getField_name m <> Some target.
Proof.
  intros Hxs Hys m Hm Hf. apply in_app_or in Hm as [Hm|Hm].
  - apply Hxs. now exists m.
  - now apply (Hys m).
Qed.

Section RoundTrips.

Variable convertUrdfFile : convert_args -> outcome string.
Variable convertUrdfContent : convert_args -> option string -> outcome string.
Variable nodes_of_string : string -> list node.

Local Notation "'spawn_urdf'" :=
  (spawn_urdf_robot_callback convertUrdfFile convertUrdfContent nodes_of_string).
Local Notation "'spawn_string'" :=
  (spawn_node_from_string_callback nodes_of_string).

(** X9.  A validated raw fragment is spawned into a world none of whose
    nodes carries its name, and the fragment brings a node that does:
    the answer is success=true, and removing the name afterwards takes
    the first such node of the fragment out again and gives back the list
    of names of before the spawn; the other nodes stay. *)
Theorem spawn_string_then_remove
        (data matched : string) (st : state) (before after : list node) (n : node) :
  data <> EmptyString ->
  Re.search Re.name_pattern data = Some matched ->
  strip_match matched <> EmptyString ->
  ~ In (strip_match matched) (node_list st) ->
  ~ Spec.carries (strip_match matched) (children st) ->
  nodes_of_string data = before ++ n :: after ->
  (forall m, In m before -> getField_name m <> Some (strip_match matched)) ->
  getField_name n = Some (strip_match matched) ->
  fst (spawn_string data st) = Returned (mkResponse true)
  /\ remove_imported_node_callback (strip_match matched) (snd (spawn_string data st))
     = (Returned tt,
        mkState (node_list st)
                (children st ++ before ++ after)
                (logged st ++ [Msg.imported_node (strip_match matched);
                               Msg.removed (strip_match matched)])).
Proof.
  intros Hdata Hsearch Hname Hfresh Hworld Hnodes Hbefore Hn.
  rewrite (spawn_string_validated _ _ _ _ Hdata Hsearch Hname Hfresh).
  assert (node_imported_successfully (strip_match matched)
                                     (children st ++ nodes_of_string data) = true)
    as ->.
  { apply imported_iff_carries. exists n. split; [|assumption].
    rewrite Hnodes. apply in_or_app. right. apply in_or_app. right. now left. }
  split; [reflexivity|]. cbn [snd].
  rewrite (remove_run _ _ (node_list st)) by (now apply list_remove_last).
  cbn [children logged node_list]. rewrite Hnodes, app_assoc.
  rewrite node_after_loop_at;
    [|now apply not_carries_app|assumption].
  cbn [Nat.add]. rewrite remove_at_middle, <- !app_assoc. reflexivity.
Qed.

(** X10.  The same for a robot description: when the fragment the
    converter gives brings a node carrying the name of the robot into a
    world where no node carried it, spawning and then removing the name
    takes that node out again and gives back the list of names. *)
Theorem spawn_urdf_then_remove
        (robot : UrdfRobot) (robot_string : string) (st : state)
        (before after : list node) (n : node) :
  name robot <> EmptyString ->
  ~ In (name robot) (node_list st) ->
  conversion convertUrdfFile convertUrdfContent robot = Some (Returned robot_string) ->
  ~ Spec.carries (name robot) (children st) ->
  nodes_of_string robot_string = before ++ n :: after ->
  (forall m, In m before -> getField_name m <> Some (name robot)) ->
  getField_name n = Some (name robot) ->
  fst (spawn_urdf robot st) = Returned (mkResponse true)
  /\ remove_imported_node_callback (name robot) (snd (spawn_urdf robot st))
     = (Returned tt,
        mkState (node_list st)
                (children st ++ before ++ after)
                (logged st ++ [Msg.imported_robot (name robot);
                               Msg.removed (name robot)])).
Proof.
  intros Hname Hfresh Hconv Hworld Hnodes Hbefore Hn.
  rewrite (spawn_urdf_validated _ _ _ _ _ Hname Hfresh), Hconv.
  split; [reflexivity|]. cbn [snd].
  rewrite (remove_run _ _ (node_list st)) by (now apply list_remove_last).
  cbn [children logged node_list]. rewrite Hnodes, app_assoc.
  rewrite node_after_loop_at;
    [|now apply not_carries_app|assumption].
  cbn [Nat.add]. rewrite remove_at_middle, <- !app_assoc. reflexivity.
Qed.

(** X11.  A robot description is spawned and no node of the world, the
    nodes of its fragment included, carries the name of the robot: the
    answer is still success=true and the name is recorded; removing the
    name afterwards takes the last node of the world, whatever it is. *)
Theorem spawn_urdf_unverified_then_remove
        (robot : UrdfRobot) (robot_string : string) (st : state)
        (rest : list node) (last : node) :
  name robot <> EmptyString ->
  ~ In (name robot) (node_list st) ->
  conversion convertUrdfFile convertUrdfContent robot = Some (Returned robot_string) ->
  ~ Spec.carries (name robot) (children st ++ nodes_of_string robot_string) ->
  children st ++ nodes_of_string robot_string = rest ++ [last] ->
  spawn_urdf robot st
  = (Returned (mkResponse true),
     mkState (node_list st ++ [name robot]) (rest ++ [last])
             (logged st ++ [Msg.imported_robot (name robot)]))
  /\ remove_imported_node_callback (name robot) (snd (spawn_urdf robot st))
     = (Returned tt,
        mkState (node_list st) rest
                (logged st ++ [Msg.imported_robot (name robot);
                               Msg.removed (name robot)])).
Proof.
  intros Hname Hfresh Hconv Hmiss Hlast.
  rewrite (spawn_urdf_validated _ _ _ _ _ Hname Hfresh), Hconv, Hlast.
  split; [reflexivity|]. cbn [snd].
  rewrite (remove_run _ _ (node_list st)) by (now apply list_remove_last).
  cbn [children logged node_list].
  rewrite Hlast in Hmiss.
  rewrite (node_after_loop_missed _ _ 0 None Hmiss).
  assert (exists c cs, rest ++ [last] = c :: cs /\ length cs = length rest)
    as (c & cs & E & Hlen).
  { destruct rest as [|r rest]; cbn [app].
    - now exists last, [].
    - exists r, (rest ++ [last]). split; [reflexivity|].
      rewrite length_app. cbn [length]. lia. }
  rewrite E. cbn [Nat.add]. rewrite Hlen, <- E, remove_at_middle, app_nil_r.
  now rewrite <- app_assoc.
Qed.

End RoundTrips.

Lemma spawn_string_then_remove_witness :
  fst (spawn_node_from_string_callback Demo.nodes_of_string Demo.box_1 Demo.desync)
  = Returned (mkResponse true)
  /\ remove_imported_node_callback
       "box_1"
       (snd (spawn_node_from_string_callback Demo.nodes_of_string Demo.box_1
                                             Demo.desync))
     = (Returned tt,
        mkState ["armA"] ([Demo.crate; Demo.wall] ++ [] ++ [])
                ([] ++ [Msg.imported_node "box_1"; Msg.removed "box_1"])).
Proof.
  apply (spawn_string_then_remove
           Demo.nodes_of_string Demo.box_1 ("name " +++ Msg.q "box_1") Demo.desync
           [] [] (mkNode "Solid" (Some "box_1"))).
  - discriminate.
  - reflexivity.
  - discriminate.
  - simpl. intros [H|[]]. discriminate.
  - intros (m & [<-|[<-|[]]] & H); discriminate.
  - reflexivity.
  - intros m [].
  - reflexivity.
Defined.

Lemma spawn_urdf_then_remove_witness :
  fst (spawn_urdf_robot_callback
         Demo.convertUrdfFile Demo.convertUrdfContent
         (fun _ => [mkNode "Robot" (Some "armA")]) Demo.armA Demo.empty)
  = Returned (mkResponse true)
  /\ remove_imported_node_callback
       "armA"
       (snd (spawn_urdf_robot_callback
               Demo.convertUrdfFile Demo.convertUrdfContent
               (fun _ => [mkNode "Robot" (Some "armA")]) Demo.armA Demo.empty))
     = (Returned tt,
        mkState [] ([] ++ [] ++ [])
                ([] ++ [Msg.imported_robot "armA"; Msg.removed "armA"])).
Proof.
  apply (spawn_urdf_then_remove
           Demo.convertUrdfFile Demo.convertUrdfContent
           (fun _ => [mkNode "Robot" (Some "armA")])
           Demo.armA "Robot armA" Demo.empty [] [] (mkNode "Robot" (Some "armA"))).
  - discriminate.
  - simpl. tauto.
  - reflexivity.
  - intros (m & [] & _).
  - reflexivity.
  - intros m [].
  - reflexivity.
Defined.

Lemma spawn_urdf_unverified_then_remove_witness :
  spawn_urdf_robot_callback Demo.convertUrdfFile Demo.convertUrdfContent
                            Demo.no_nodes Demo.armA
                            (mkState [] [Demo.crate; Demo.wall] [])
  = (Returned (mkResponse true),
     mkState ([] ++ ["armA"]) ([Demo.crate] ++ [Demo.wall])
             ([] ++ [Msg.imported_robot "armA"]))
  /\ remove_imported_node_callback
       "armA"
       (snd (spawn_urdf_robot_callback
               Demo.convertUrdfFile Demo.convertUrdfContent
               Demo.no_nodes Demo.armA (mkState [] [Demo.crate; Demo.wall] [])))
     = (Returned tt,
        mkState [] [Demo.crate]
                ([] ++ [Msg.imported_robot "armA"; Msg.removed "armA"])).
Proof.
  apply (spawn_urdf_unverified_then_remove
           Demo.convertUrdfFile Demo.convertUrdfContent Demo.no_nodes
           Demo.armA "Robot armA" (mkState [] [Demo.crate; Demo.wall] [])
           [Demo.crate] Demo.wall).
  - discriminate.
  - simpl. tauto.
  - reflexivity.
  - intros (m & [<-|[<-|[]]] & H); discriminate.
  - reflexivity.
Defined.

(** ** Requests turned down before any conversion *)

(** X12.  A robot-description request without a name, or with a fresh
    name but neither a file path nor a description, is answered
    success=false with one log line; the list of names and the world are
    untouched and no converter has a say in the answer. *)
Theorem spawn_urdf_rejects_without_converting
        (convertUrdfFile : convert_args -> outcome string)
        (convertUrdfContent : convert_args -> option string -> outcome string)
        (nodes_of_string : string -> list node)
        (robot : UrdfRobot) (st : state) :
  (name robot = EmptyString ->
   spawn_urdf_robot_callback convertUrdfFile convertUrdfContent nodes_of_string
                             robot st
   = (Returned (mkResponse false),
      mkState (node_list st) (children st) (logged st ++ [Msg.unnamed_robot])))
  /\ (name robot <> EmptyString ->
      ~ In (name robot) (node_list st) ->
      urdf_path robot = EmptyString ->
      robot_description robot = EmptyString ->
      spawn_urdf_robot_callback convertUrdfFile convertUrdfContent nodes_of_string
                                robot st
      = (Returned (mkResponse false),
         mkState (node_list st) (children st) (logged st ++ [Msg.no_source]))).
Proof.
  split.
  - intros Hname. unfold spawn_urdf_robot_callback. now rewrite Hname.
  - intros Hname Hfresh Hpath Hdesc.
    rewrite (spawn_urdf_validated _ _ _ _ _ Hname Hfresh). unfold conversion.
    now rewrite Hpath, Hdesc.
Qed.

Lemma spawn_urdf_rejects_without_converting_witness :
  spawn_urdf_robot_callback
    Demo.convertUrdfFile Demo.convertUrdfContent Demo.nodes_of_string
    (mkUrdfRobot "armC" EmptyString EmptyString "meshes/" "1 0 0" EmptyString
                 true false EmptyString)
    Demo.desync
  = (Returned (mkResponse false),
     mkState (node_list Demo.desync) (children Demo.desync)
             (logged Demo.desync ++ [Msg.no_source])).
Proof.
  apply spawn_urdf_rejects_without_converting.
  - discriminate.
  - simpl. intros [H|[]]. discriminate.
  - reflexivity.
  - reflexivity.
Defined.

(** ** The node from its creation on *)

Section Node.

Variable convertUrdfFile : convert_args -> outcome string.
Variable convertUrdfContent : convert_args -> option string -> outcome string.
Variable nodes_of_string : string -> list node.

Local Notation "'spawn_any'" :=
  (spawn convertUrdfFile convertUrdfContent nodes_of_string).
Local Notation "'dispatch_one'" :=
  (dispatch convertUrdfFile convertUrdfContent nodes_of_string).
Local Notation "'spin_all'" :=
  (spin convertUrdfFile convertUrdfContent nodes_of_string).

Lemma dispatch_service_call (r : spawn_request) (st : state) :
  snd (dispatch_one (ServiceCall r) st) = snd (spawn_any r st).
Proof.
  cbn [dispatch]. unfold bind, ret. now destruct (spawn_any r st) as [[resp|e] st'].
Qed.

Lemma dispatch_remove_node (data : string) (st : state) :
  snd (dispatch_one (RemoveNode data) st)
  = snd (remove_imported_node_callback data st).
Proof.
  cbn [dispatch]. unfold bind, ret.
  now destruct (remove_imported_node_callback data st) as [[u|e] st'].
Qed.

Lemma dispatch_well_kept (P : string -> Prop) (q : request) (st : state) :
  well_kept P st ->
  (forall r n, q = ServiceCall r -> spawn_name r = Some n -> P n) ->
  well_kept P (snd (dispatch_one q st)).
Proof.
  intros (Hnd & Hne & HP) Hq. unfold well_kept. destruct q as [r|data].
  - rewrite dispatch_service_call.
    pose proof (spawn_keeps_NoDup convertUrdfFile convertUrdfContent
                                  nodes_of_string r st Hnd) as Hnd'.
    destruct (spawn_any r st) as [[resp|e] st'] eqn:E; cbn [snd] in *.
    + destruct (spawn_answer_frame _ _ _ _ _ _ _ E) as (_ & _ & Hfalse & Htrue).
      destruct (success resp).
      * destruct (Htrue eq_refl) as (n & Hn & Hnonempty & Hl).
        split; [assumption|]. rewrite Hl. split.
        -- intros Hin. apply in_app_or in Hin as [Hin|[Hin|[]]];
             [contradiction | now apply Hnonempty].
        -- intros m Hm. apply in_app_or in Hm as [Hm|[<-|[]]];
             [now apply HP | now apply (Hq r)].
      * rewrite (Hfalse eq_refl). repeat split; assumption.
    + destruct (spawn_raise_leaves_state _ _ _ _ _ _ _ E) as (-> & _).
      repeat split; assumption.
  - rewrite dispatch_remove_node.
    pose proof (remove_keeps_NoDup data st Hnd) as Hnd'.
    destruct (remove_cases data st)
      as [(_ & Hrun)|[(_ & _ & Hrun)|(_ & l1 & l2 & before & n & after
                                        & Hl & _ & _ & Hrun)]];
      rewrite Hrun in *; cbn [snd node_list] in *;
      try (repeat split; assumption).
    assert (incl (l1 ++ l2) (node_list st)) as Hincl.
    { rewrite Hl. intros m Hm. apply in_or_app.
      apply in_app_or in Hm as [Hm|Hm]; [now left | right; now right]. }
    repeat split; [assumption | |].
    + intros Hin. now apply Hne, Hincl.
    + intros m Hm. now apply HP, Hincl.
Qed.

Lemma spin_well_kept (P : string -> Prop) (qs : list request) (st : state) :
  well_kept P st ->
  (forall r n, In (ServiceCall r) qs -> spawn_name r = Some n -> P n) ->
  well_kept P (snd (spin_all qs st)).
Proof.
  revert st. induction qs as [|q qs IH]; intros st Hst Hqs; cbn [spin].
  - assumption.
  - assert (well_kept P (snd (dispatch_one q st))) as Hstep.
    { apply dispatch_well_kept; [assumption|].
      intros r n -> Hn. apply (Hqs r n); [now left | assumption]. }
    destruct (dispatch_one q st) as [[o|e] st'].
    + apply IH; [assumption|]. intros r n Hr. apply Hqs. now right.
    + assumption.
Qed.

(** X13.  From the creation of the node on, after any requests served in
    order, the list of names has no repetition, never holds the empty
    name, and holds only names that some spawn request of the run asked
    for (or carried in its fragment). *)
Theorem spin_registry_invariant (world : list node) (qs : list request) :
  let st := snd (spin_all qs (init world)) in
  NoDup (node_list st)
  /\ ~ In EmptyString (node_list st)
  /\ forall n, In n (node_list st) ->
               exists r, In (ServiceCall r) qs /\ spawn_name r = Some n.
Proof.
  apply (spin_well_kept
           (fun n => exists r, In (ServiceCall r) qs /\ spawn_name r = Some n)).
  - repeat split; [constructor | intros [] | intros n []].
  - intros r n Hr Hn. now exists r.
Qed.

End Node.

(** X14.  A recorded name stays recorded through any requests served in
    order, as long as none of them is a removal request for that very
    name: no spawn request, failed or not, and no removal of another name
    takes it out of the list of names. *)
Theorem name_stays_until_removed
        (convertUrdfFile : convert_args -> outcome string)
        (convertUrdfContent : convert_args -> option string -> outcome string)
        (nodes_of_string : string -> list node)
        (n : string) (qs : list request) (st : state) :
  In n (node_list st) ->
  ~ In (RemoveNode n) qs ->
  In n (node_list
          (snd (spin convertUrdfFile convertUrdfContent nodes_of_string qs st))).
Proof.
  revert st. induction qs as [|q qs IH]; intros st Hin Hqs; cbn [spin].
  - assumption.
  - assert (In n (node_list
                    (snd (dispatch convertUrdfFile convertUrdfContent
                                   nodes_of_string q st)))) as Hstep.
    { destruct q as [r|data].
      - rewrite dispatch_service_call.
        destruct (spawn convertUrdfFile convertUrdfContent nodes_of_string r st)
          as [[resp|e] st'] eqn:E; cbn [snd].
        + now apply (proj1 (spawn_step _ _ _ _ _ _ _ E)).
        + now destruct (spawn_raise_leaves_state _ _ _ _ _ _ _ E) as (-> & _).
      - rewrite dispatch_remove_node.
        assert (data <> n) as Hne.
        { intros ->. apply Hqs. now left. }
        destruct (remove_cases data st)
          as [(_ & ->)|[(_ & _ & ->)|(_ & l1 & l2 & before & m & after
                                        & Hl & _ & _ & ->)]];
          cbn [snd node_list]; try assumption.
        rewrite Hl in Hin. apply in_or_app.
        apply in_app_or in Hin as [Hin|[Hin|Hin]];
          [now left | contradiction | now right]. }
    destruct (dispatch convertUrdfFile convertUrdfContent nodes_of_string q st)
      as [[o|e] st']; cbn [snd] in *.
    + apply IH; [assumption|]. intros H. apply Hqs. now right.
    + assumption.
Qed.

Lemma name_stays_until_removed_witness :
  In "armA"
     (node_list
        (snd (spin Demo.convertUrdfFile Demo.convertUrdfContent Demo.nodes_of_string
                   [ServiceCall (SpawnNodeFromString Demo.box_1);
                    RemoveNode "box_1";
                    ServiceCall (SpawnUrdfRobot Demo.armA);
                    ServiceCall (SpawnNodeFromString Demo.nameless)]
                   Demo.desync))).
Proof.
  apply name_stays_until_removed.
  - now left.
  - intros [H|[H|[H|[H|[]]]]]; discriminate.
Defined.
